(** * RustPythonCFFI: the long-word ratio of [inPython.py]

    A shallow embedding of [shortLong] (src/inPython.py) together with the
    pieces of the Python runtime it relies on: [str.split()] without
    arguments, [len], string comparison, and true division of two [int]s
    into a binary64 [float]. *)

From Stdlib Require Import List Bool Arith ZArith NArith Lia.
From Stdlib Require Import Ascii String.
From Stdlib Require Import SpecFloat.
From Stdlib Require Import DecimalString Permutation.
Import ListNotations.

(** ** Python strings *)

(** A [str] is a sequence of Unicode code points; [len] counts them. *)
Definition codepoint := N.
Definition pystr := list codepoint.

Definition len {A : Type} (x : list A) : Z := Z.of_nat (List.length x).

(** Literals of the source are ASCII, where byte and code point agree. *)
Definition py (s : string) : pystr :=
  List.map N_of_ascii (list_ascii_of_string s).

(** [a == b] on [str]. *)
Fixpoint str_eqb (a b : pystr) : bool :=
  match a, b with
  | [], [] => true
  | x :: a', y :: b' => N.eqb x y && str_eqb a' b'
  | _, _ => false
  end.

(** [a != b] on [str]. *)
Definition str_neb (a b : pystr) : bool := negb (str_eqb a b).

(** [str.isspace] on one code point: the characters of bidirectional type
    WS, B or S, or of category Zs (CPython's [_PyUnicode_IsWhitespace]). *)
Definition isspace (c : codepoint) : bool :=
  ((9 <=? c) && (c <=? 13) ||
   (28 <=? c) && (c <=? 32) ||
   (c =? 133) || (c =? 160) || (c =? 5760) ||
   (8192 <=? c) && (c <=? 8202) ||
   (c =? 8232) || (c =? 8233) || (c =? 8239) || (c =? 8287) ||
   (c =? 12288))%N.

(** The number of bytes of a code point in UTF-8 ([str.encode()], as
    src/withRust.py does before it hands the text to the native side). *)
Definition utf8_width (c : codepoint) : Z :=
  if (c <? 128)%N then 1%Z
  else if (c <? 2048)%N then 2%Z
  else if (c <? 65536)%N then 3%Z
  else 4%Z.

Definition utf8_len (s : pystr) : Z :=
  fold_right (fun c n => (utf8_width c + n)%Z) 0%Z s.

(** [str.split()] with no argument.  The scan keeps the word that is being
    read ([string[j:i]] of the runtime's loop) in [cur]; a whitespace
    character closes it, and a word is only emitted when it is not empty. *)
Definition emit (cur : pystr) : list pystr :=
  match cur with
  | [] => []
  | _ :: _ => [cur]
  end.

Fixpoint split_scan (cur : pystr) (s : pystr) : list pystr :=
  match s with
  | [] => emit cur
  | c :: s' =>
      if isspace c then emit cur ++ split_scan [] s'
      else split_scan (cur ++ [c]) s'
  end.

Definition str_split (s : pystr) : list pystr := split_scan [] s.

(** ** Python floats and true division *)

(** A [float] is an IEEE 754 binary64 number. *)
Definition pyfloat := spec_float.

Definition prec : Z := 53.
Definition emax : Z := 1024.

(** An [int] seen as an exact, unrounded binary number. *)
Definition float_of_int (a : Z) : spec_float :=
  match a with
  | Z0 => S754_zero false
  | Zpos p => S754_finite false p 0
  | Zneg p => S754_finite true p 0
  end.

Definition float_zero : pyfloat := S754_zero false.
Definition float_one : pyfloat := S754_finite false 4503599627370496 (-52).

(** [x <= y] on floats. *)
Definition float_le (x y : pyfloat) : bool := SFleb x y.

(** [0.0 <= x <= 1.0]. *)
Definition in_unit_interval (x : pyfloat) : bool :=
  float_le float_zero x && float_le x float_one.

(** A float whose exact value [m * 2 ^ e] lies between 0 and 1. *)
Definition unit_value (x : pyfloat) : bool :=
  match x with
  | S754_zero _ => true
  | S754_finite false m e => (e <=? 0)%Z && (Z.pos m <=? 2 ^ (- e))%Z
  | _ => false
  end.

(** What a ratio of two counts is: a number of the binary64 format, of
    exact value between 0 and 1, that compares so with [0.0] and [1.0]. *)
Definition is_ratio (x : pyfloat) : bool :=
  valid_binary prec emax x && unit_value x && in_unit_interval x.

(** [a / b] rounded once, to nearest with ties to even, into binary64.
    The operands enter the division as the exact integers they are, so
    that the quotient is rounded only once, whatever their size. *)
Definition ratio_float (a b : Z) : pyfloat :=
  SFdiv prec emax (float_of_int a) (float_of_int b).

(** [float(a)]: the conversion of an [int], rounded into binary64.  When
    both operands of [/] have at most 53 bits, the interpreter converts
    them, exactly, and divides the two floats. *)
Definition float_from_int (a : Z) : pyfloat := binary_normalize prec emax a 0 false.

(** Exceptions the interpreter can raise in [shortLong]. *)
Inductive exn : Type :=
| ZeroDivisionError
| OverflowError.

Inductive outcome (A : Type) : Type :=
| Return (a : A)
| Raise (e : exn).
Arguments Return {A} a.
Arguments Raise {A} e.

(** [a / b] on two [int]s: [ZeroDivisionError] when [b] is zero, otherwise
    the quotient rounded once, to nearest even, into binary64;
    [OverflowError] when the rounded quotient is too large for a float. *)
Definition int_truediv (a b : Z) : outcome pyfloat :=
  if (b =? 0)%Z then Raise ZeroDivisionError
  else
    match ratio_float a b with
    | S754_infinity _ => Raise OverflowError
    | q => Return q
    end.

(** ** The interpreter state around a call *)

(** Module-level names of the script and what it has printed so far. *)
Record module_state : Type := {
  example : pystr;
  printed : list pystr
}.

(** Computations that may read and write the module state and may raise. *)
Definition Py (A : Type) : Type := module_state -> outcome A * module_state.

Definition ret {A : Type} (a : A) : Py A := fun g => (Return a, g).

Definition bind {A B : Type} (m : Py A) (k : A -> Py B) : Py B :=
  fun g =>
    match m g with
    | (Return a, g') => k a g'
    | (Raise e, g') => (Raise e, g')
    end.

Definition lift {A : Type} (o : outcome A) : Py A := fun g => (o, g).

Definition get_example : Py pystr := fun g => (Return (example g), g).

Definition set_example (v : pystr) : Py unit :=
  fun g => (Return tt, {| example := v; printed := printed g |}).

Notation "x <- m ;; k" := (bind m (fun x => k))
  (at level 61, m at next level, right associativity).

(** [for i in xs: acc = body(i, acc)], with [acc] the local the loop
    updates. *)
Fixpoint for_each {A S : Type} (xs : list A) (body : A -> S -> Py S) (acc : S) : Py S :=
  match xs with
  | [] => ret acc
  | i :: xs' => acc' <- body i acc ;; for_each xs' body acc'
  end.

(** ** src/inPython.py *)

Definition the : pystr := py "the".
Definition a_ : pystr := py "a".

(** The body of the loop: [if len(i) > 8: l += 1]. *)
Definition count_long (i : pystr) (l : Z) : Py Z :=
  if (8 <? len i)%Z then ret (l + 1)%Z else ret l.

(** [def shortLong(string)] *)
Definition shortLong (string : pystr) : Py pyfloat :=
  split <- ret (str_split string) ;;
  split <- ret (filter (fun i => str_neb i the && str_neb i a_) split) ;;
  l <- ret 0%Z ;;
  l <- for_each split count_long l ;;
  lift (int_truediv l (len split)).

(** The [#LOAD STRING] block for a file that opens and whose lines all
    decode, [lines] being what [for line in f] yields: [example = ""],
    then one concatenation per line.  What the block does when [open] or
    the reading fails is in [load_block]. *)
Definition load_string (lines : list pystr) : Py unit :=
  _ <- set_example [] ;;
  _ <- for_each lines
         (fun line (_ : unit) =>
            ex <- get_example ;; set_example (ex ++ line)) tt ;;
  ret tt.

(** [print(s)] *)
Definition print (s : pystr) : Py unit :=
  fun g => (Return tt, {| example := example g; printed := printed g ++ [s] |}).

(** The script from its start to its first call of [shortLong]. *)
Definition script (lines : list pystr) : Py pyfloat :=
  _ <- load_string lines ;;
  _ <- print (py "Pure Python: ") ;;
  ex <- get_example ;;
  shortLong ex.

(** The result of a call made in state [g]. *)
Definition result_of {A : Type} (m : Py A) (g : module_state) : outcome A := fst (m g).
Definition state_after {A : Type} (m : Py A) (g : module_state) : module_state := snd (m g).

Definition g0 : module_state := {| example := []; printed := [] |}.

(** ** The metric in the words of the specification *)

(** Splitting at every whitespace character; between two adjacent
    separators, and at both ends, the token is empty. *)
Fixpoint tokens (s : pystr) : list pystr :=
  match s with
  | [] => [[]]
  | c :: s' =>
      if isspace c then [] :: tokens s'
      else
        match tokens s' with
        | t :: ts => (c :: t) :: ts
        | [] => [[c]]
        end
  end.

Definition nonempty (t : pystr) : bool :=
  match t with
  | [] => false
  | _ :: _ => true
  end.

(** Words: the tokens, empty ones discarded. *)
Definition words (s : pystr) : list pystr := filter nonempty (tokens s).

Definition stopwords : list pystr := [py "the"; py "a"].

Definition is_stopword (w : pystr) : bool := existsb (str_eqb w) stopwords.

Definition qualifying_words (s : pystr) : list pystr :=
  filter (fun w => negb (is_stopword w)) (words s).

(** Long: more than 8 characters. *)
Definition is_long (w : pystr) : bool := (8 <? len w)%Z.

(** [Q], the number of qualifying words. *)
Definition qualifying_count (s : pystr) : Z := len (qualifying_words s).

(** [L], the number of long qualifying words. *)
Definition long_count (s : pystr) : Z := len (filter is_long (qualifying_words s)).

(** The tokens with [cur] put in front of the first of them. *)
Definition glue (cur : pystr) (ts : list pystr) : list pystr :=
  match ts with
  | t :: ts' => (cur ++ t) :: ts'
  | [] => [cur]
  end.

(** A run of whitespace only. *)
Definition is_whitespace (w : pystr) : bool := forallb isspace w.

(** A separator: a run of whitespace that is not empty. *)
Definition is_separator (w : pystr) : bool := nonempty w && is_whitespace w.

(** A word: a run of characters, none of them whitespace, that is not
    empty. *)
Definition is_word (w : pystr) : bool :=
  nonempty w && forallb (fun c => negb (isspace c)) w.

(** The exponent at which the division computes the integer quotient of
    two integers [a <= b]. *)
Definition div_exp (a b : positive) : Z :=
  Z.max (Zdigits2 (Z.pos a) - Zdigits2 (Z.pos b) - 53) (-1074).

(** Texts of the test list. *)
Definition TAB : pystr := [9%N].
Definition NEWLINE : pystr := [10%N].
Definition the_cat_sat : pystr := py "the cat sat".
Definition The_cat_sat : pystr := py "The cat sat".
Definition the_cat_sat_irregular : pystr :=
  py "the  cat" ++ TAB ++ py "sat" ++ NEWLINE.

(** Eight times U+00E9: 8 code points, 16 bytes in UTF-8. *)
Definition e_acute_8 : pystr := repeat 233%N 8.
(** Nine times U+00E9: 9 code points, 18 bytes in UTF-8. *)
Definition e_acute_9 : pystr := repeat 233%N 9.

(** ** The rest of the two scripts *)

(** What ends a script: an exception of [shortLong] that nobody catches,
    the [ValueError] of [int(nan)], the [UnicodeEncodeError] of
    [str.encode()]. *)
Inductive script_exn : Type :=
| Uncaught (e : exn)
| ValueError
| UnicodeEncodeError.

(** [x * 100]: the [int] is converted, then the two floats are
    multiplied. *)
Definition times_100 (x : pyfloat) : pyfloat :=
  SFmul prec emax x (float_from_int 100).

(** [int(x)] on a float: the digits after the point are dropped;
    [ValueError] for NaN and [OverflowError] for an infinity. *)
Definition int_of_float (x : pyfloat) : script_exn + Z :=
  match x with
  | S754_nan => inl ValueError
  | S754_infinity _ => inl (Uncaught OverflowError)
  | S754_zero _ => inr 0%Z
  | S754_finite s m e => inr (cond_Zopp s (Z.shiftl (Z.pos m) e))
  end.

(** [str(n)] on an [int]: its decimal digits. *)
Definition str_of_int (n : Z) : pystr := py (NilZero.string_of_int (Z.to_int n)).

(** [str(int(x * 100)) + "%"] *)
Definition percent_line (x : pyfloat) : script_exn + pystr :=
  match int_of_float (times_100 x) with
  | inl e => inl e
  | inr n => inr (str_of_int n ++ py "%")
  end.

(** src/inPython.py from its start to the line before [#TIMEIT]: the text
    is loaded, the heading printed, [shortLong(example)] computed and
    printed as a percentage. *)
Definition inPython_main (lines : list pystr) (g : module_state)
  : (script_exn + unit) * module_state :=
  match script lines g with
  | (Raise e, g') => (inl (Uncaught e), g')
  | (Return x, g') =>
      match percent_line x with
      | inl e => (inl e, g')
      | inr line => (inr tt, snd (print line g'))
      end
  end.

(** A [bytes] object: numbers below 256. *)
Definition pybytes := list N.

(** UTF-8 of one code point; nothing for a surrogate, which
    [str.encode()] refuses, nor beyond U+10FFFF, where no character is. *)
Definition encode_char (c : codepoint) : option pybytes :=
  (if c <? 128 then Some [c]
   else if c <? 2048 then Some [192 + c / 64; 128 + c mod 64]
   else if c <? 65536 then
     if (55296 <=? c) && (c <=? 57343) then None
     else Some [224 + c / 4096; 128 + (c / 64) mod 64; 128 + c mod 64]
   else if c <=? 1114111 then
     Some [240 + c / 262144; 128 + (c / 4096) mod 64;
           128 + (c / 64) mod 64; 128 + c mod 64]
   else None)%N.

(** [s.encode()] *)
Fixpoint encode (s : pystr) : script_exn + pybytes :=
  match s with
  | [] => inr []
  | c :: s' =>
      match encode_char c, encode s' with
      | Some b, inr bs => inr (b ++ bs)
      | _, _ => inl UnicodeEncodeError
      end
  end.

(** [ffi.new("char[]", string)]: the bytes and a closing zero. *)
Definition ffi_new_char_array (string : pybytes) : pybytes := string ++ [0%N].

(** The arguments of the native call, [cstr] and [len(cstr)]:
    [string = example.encode()], [cstr = ffi.new("char[]", string)]. *)
Definition native_arguments (example : pystr) : script_exn + (pybytes * Z) :=
  match encode example with
  | inl e => inl e
  | inr string =>
      let cstr := ffi_new_char_array string in
      inr (cstr, len cstr)
  end.

(** src/withRust.py from its start to the line before [#TIMEIT], for a
    native function [short_long] of the library it loads. *)
Definition withRust_main (short_long : pybytes -> Z -> pyfloat)
    (lines : list pystr) (g : module_state)
  : (script_exn + unit) * module_state :=
  let g1 := snd (load_string lines g) in
  let g2 := snd (print (py "With Rust: ") g1) in
  match native_arguments (example g2) with
  | inl e => (inl e, g2)
  | inr (cstr, n) =>
      match percent_line (short_long cstr n) with
      | inl e => (inl e, g2)
      | inr line => (inr tt, snd (print line g2))
      end
  end.

(** A text as the decoding of a file gives it: code points up to U+10FFFF,
    no surrogates. *)
Definition is_scalar (c : codepoint) : bool :=
  ((c <=? 1114111) && negb ((55296 <=? c) && (c <=? 57343)))%N.

Definition is_text (s : pystr) : bool := forallb is_scalar s.

Definition is_ascii (s : pystr) : bool := forallb (fun c => (c <? 128)%N) s.

(** The last character of a text is whitespace. *)
Definition ends_with_space (s : pystr) : bool :=
  match rev s with
  | c :: _ => isspace c
  | [] => false
  end.

(** Sums of the two counts over the lines of a file. *)
Definition sum_qualifying (lines : list pystr) : Z :=
  fold_right (fun line n => (qualifying_count line + n)%Z) 0%Z lines.

Definition sum_long (lines : list pystr) : Z :=
  fold_right (fun line n => (long_count line + n)%Z) 0%Z lines.

(** ** The error policy of the specification *)

(** What a caller can be handed in place of a ratio: an exception of the
    interpreter that escapes the call, or the error that section 7 of the
    specification asks for, raised on purpose when no word qualifies. *)
Inductive surfaced_error : Type :=
| InterpreterException (e : exn)
| EmptyQualifyingSetError.

(** [computeLongWordRatio] as sections 4.1 and 7 of the specification word
    it: the count of qualifying words is tested, and the division only
    made when it is not zero. *)
Definition computeLongWordRatio (text : pystr) : surfaced_error + pyfloat :=
  if (qualifying_count text =? 0)%Z then inl EmptyQualifyingSetError
  else inr (ratio_float (long_count text) (qualifying_count text)).

(** What the caller of [shortLong] is handed: the float, or the exception
    that left the function. *)
Definition handed_to_caller (o : outcome pyfloat) : surfaced_error + pyfloat :=
  match o with
  | Return x => inr x
  | Raise e => inl (InterpreterException e)
  end.

(** Words written one after the other, each followed by its separator. *)
Fixpoint spaced (pairs : list (pystr * pystr)) : pystr :=
  match pairs with
  | [] => []
  | (w, sep) :: pairs' => w ++ sep ++ spaced pairs'
  end.

(** ** Opening and reading the file *)




(** ** Binary64 division of two integers *)

Section Binary64.

Local Open Scope Z_scope.

Lemma digits2_pos_size (p : positive) : digits2_pos p = Pos.size p.
Proof. induction p; simpl; congruence. Qed.

(** The number of binary digits of a positive integer brackets it. *)
Lemma Zdigits2_bounds (q : Z) :
  0 < q -> 2 ^ (Zdigits2 q - 1) <= q < 2 ^ Zdigits2 q.
Proof.
  intros Hq. destruct q as [|p|p]; try lia. cbn [Zdigits2].
  rewrite digits2_pos_size.
  pose proof (Pos.size_le p) as Hle. pose proof (Pos.size_gt p) as Hgt.
  assert (H2 : 2 ^ Z.pos (Pos.size p) = Z.pos (2 ^ Pos.size p))
    by (now rewrite Pos2Z.inj_pow).
  split; [|lia].
  assert (H3 : 2 ^ Z.pos (Pos.size p) = 2 * 2 ^ (Z.pos (Pos.size p) - 1)).
  { rewrite <- Z.pow_succ_r by lia. f_equal. lia. }
  lia.
Qed.

Lemma Zdigits2_nonneg (q : Z) : 0 <= Zdigits2 q.
Proof. destruct q; cbn [Zdigits2]; lia. Qed.

Lemma Zdigits2_upper (q k : Z) : 0 <= k -> 0 <= q < 2 ^ k -> Zdigits2 q <= k.
Proof.
  intros Hk [H0 Hq].
  destruct (Z.eq_dec q 0) as [->|Hne]; [exact Hk|].
  destruct (Zdigits2_bounds q ltac:(lia)) as [Hlo _].
  destruct (Z_lt_le_dec k (Zdigits2 q)) as [Hlt|]; [|assumption].
  exfalso.
  assert (2 ^ k <= 2 ^ (Zdigits2 q - 1)) by (apply Z.pow_le_mono_r; lia).
  lia.
Qed.

Lemma Zdigits2_lower (q k : Z) : 2 ^ (k - 1) <= q -> 0 < k -> k <= Zdigits2 q.
Proof.
  intros Hq Hk.
  assert (0 < 2 ^ (k - 1)) by (apply Z.pow_pos_nonneg; lia).
  destruct (Zdigits2_bounds q ltac:(lia)) as [_ Hhi].
  destruct (Z_lt_le_dec (Zdigits2 q) k) as [Hlt|]; [|assumption].
  exfalso.
  assert (2 ^ Zdigits2 q <= 2 ^ (k - 1)).
  { apply Z.pow_le_mono_r; [lia|]. pose proof (Zdigits2_nonneg q). lia. }
  lia.
Qed.

Lemma Zdigits2_le (x y : Z) : 0 <= x <= y -> Zdigits2 x <= Zdigits2 y.
Proof.
  intros [Hx Hxy]. destruct (Z.eq_dec y 0) as [->|Hy].
  - replace x with 0 by lia. lia.
  - apply Zdigits2_upper; [apply Zdigits2_nonneg|].
    destruct (Zdigits2_bounds y ltac:(lia)). lia.
Qed.

(** Dropping [n] low digits of a number that has more than [n]. *)
Lemma Zdigits2_div_pow2 (q n : Z) :
  0 <= n < Zdigits2 q -> 0 <= q -> Zdigits2 (q / 2 ^ n) = Zdigits2 q - n.
Proof.
  intros [Hn Hd] Hq.
  assert (Hq0 : 0 < q) by (destruct q; cbn [Zdigits2] in Hd; lia).
  destruct (Zdigits2_bounds q Hq0) as [Hlo Hhi].
  assert (Hp : 0 < 2 ^ n) by (apply Z.pow_pos_nonneg; lia).
  apply Z.le_antisymm.
  - apply Zdigits2_upper; [lia|]. split; [apply Z.div_pos; lia|].
    apply Z.div_lt_upper_bound; [lia|].
    rewrite <- Z.pow_add_r by lia. now replace (n + (Zdigits2 q - n)) with (Zdigits2 q) by lia.
  - apply Zdigits2_lower; [|lia].
    apply Z.div_le_lower_bound; [lia|].
    rewrite <- Z.pow_add_r by lia. now replace (n + (Zdigits2 q - n - 1)) with (Zdigits2 q - 1) by lia.
Qed.

Lemma fexp_eq (e : Z) : fexp prec emax e = Z.max (e - 53) (-1074).
Proof. reflexivity. Qed.

Lemma iter_pos_nat {A : Type} (f : A -> A) (p : positive) (x : A) :
  iter_pos f p x = Nat.iter (Pos.to_nat p) f x.
Proof.
  revert x; induction p as [p IH|p IH|]; intros x; cbn [iter_pos].
  - rewrite !IH, Pos2Nat.inj_xI.
    replace (S (2 * Pos.to_nat p)) with (Pos.to_nat p + S (Pos.to_nat p))%nat by lia.
    now rewrite Nat.iter_add, Nat.iter_succ_r.
  - rewrite !IH, Pos2Nat.inj_xO.
    replace (2 * Pos.to_nat p)%nat with (Pos.to_nat p + Pos.to_nat p)%nat by lia.
    now rewrite Nat.iter_add.
  - reflexivity.
Qed.

Lemma shr_1_m (r : shr_record) : 0 <= shr_m r -> shr_m (shr_1 r) = shr_m r / 2.
Proof.
  destruct r as [m r s]; cbn [shr_m]. intros Hm.
  destruct m as [|[p|p|]|p]; cbn [shr_1 shr_m]; try lia; try reflexivity.
  - apply Z.div_unique with 1; lia.
  - apply Z.div_unique with 0; lia.
Qed.

Lemma iter_shr_1_m (n : nat) (r : shr_record) :
  0 <= shr_m r -> shr_m (Nat.iter n shr_1 r) = shr_m r / 2 ^ Z.of_nat n.
Proof.
  intros Hm. induction n as [|n IH].
  - simpl. now rewrite Z.div_1_r.
  - rewrite Nat.iter_succ, shr_1_m, IH.
    + rewrite Nat2Z.inj_succ, Z.pow_succ_r by lia.
      rewrite Z.div_div by lia. f_equal; lia.
    + rewrite IH. apply Z.div_pos; lia.
Qed.

Lemma shr_record_of_loc_m (m : Z) (l : location) : shr_m (shr_record_of_loc m l) = m.
Proof. now destruct l as [|[]]. Qed.

(** What a right shift does to the mantissa and to the exponent. *)
Lemma shr_m_spec (m : Z) (l : location) (e n : Z) :
  0 <= m ->
  shr_m (fst (shr (shr_record_of_loc m l) e n)) = m / 2 ^ Z.max 0 n /\
  snd (shr (shr_record_of_loc m l) e n) = e + Z.max 0 n.
Proof.
  intros Hm. destruct n as [|p|p]; simpl.
  - rewrite shr_record_of_loc_m, Z.div_1_r. lia.
  - rewrite iter_pos_nat, iter_shr_1_m by (now rewrite shr_record_of_loc_m).
    rewrite shr_record_of_loc_m, positive_nat_Z. lia.
  - rewrite shr_record_of_loc_m, Z.div_1_r. lia.
Qed.

Lemma round_nearest_even_bounds (m : Z) (l : location) :
  m <= round_nearest_even m l <= m + 1.
Proof. destruct l as [|[]]; simpl; try lia. destruct (Z.even m); lia. Qed.

Lemma shr_fexp_spec (m e : Z) (l : location) :
  0 <= m ->
  shr_m (fst (shr_fexp prec emax m e l)) =
    m / 2 ^ Z.max 0 (fexp prec emax (Zdigits2 m + e) - e) /\
  snd (shr_fexp prec emax m e l) = e + Z.max 0 (fexp prec emax (Zdigits2 m + e) - e).
Proof. intros Hm. unfold shr_fexp. now apply shr_m_spec. Qed.

Lemma pow2_div_lt (q a n : Z) :
  0 <= n -> 0 <= a -> q < 2 ^ (a + n) -> q / 2 ^ n < 2 ^ a.
Proof.
  intros Hn Ha Hq. apply Z.div_lt_upper_bound; [lia|].
  rewrite <- Z.pow_add_r by lia. now rewrite Z.add_comm.
Qed.


(** After the shift, the mantissa has the digits its exponent asks for. *)
Lemma shr_fexp_canonical (m e : Z) (l : location) :
  0 <= m -> e <= fexp prec emax (Zdigits2 m + e) ->
  fexp prec emax
    (Zdigits2 (shr_m (fst (shr_fexp prec emax m e l))) + snd (shr_fexp prec emax m e l)) =
  snd (shr_fexp prec emax m e l).
Proof.
  intros Hm He. destruct (shr_fexp_spec m e l Hm) as [-> ->].
  pose proof (Zdigits2_nonneg m) as Hd.
  rewrite fexp_eq in He. rewrite !fexp_eq.
  set (d := Zdigits2 m) in *.
  set (n := Z.max 0 (Z.max (d + e - 53) (-1074) - e)).
  destruct (Z_lt_le_dec n d) as [Hlt|Hle].
  - rewrite Zdigits2_div_pow2 by (fold d; lia). fold d. lia.
  - assert (Hz : m / 2 ^ n = 0).
    { apply Z.div_small. split; [exact Hm|].
      destruct (Z.eq_dec m 0) as [->|Hne]; [apply Z.pow_pos_nonneg; lia|].
      destruct (Zdigits2_bounds m ltac:(lia)) as [_ Hhi]. fold d in Hhi.
      assert (2 ^ d <= 2 ^ n) by (apply Z.pow_le_mono_r; lia). lia. }
    rewrite Hz. cbn [Zdigits2]. lia.
Qed.

Lemma in_unit_interval_finite (m : positive) (e : Z) :
  e <= -53 \/ (e = -52 /\ Z.pos m <= 2 ^ 52) ->
  in_unit_interval (S754_finite false m e) = true.
Proof.
  intros H. unfold in_unit_interval, float_le, SFleb, float_zero, float_one.
  cbn [SFcompare andb].
  destruct (Z.compare_spec e (-52)) as [He|He|He]; try reflexivity; [|lia].
  destruct H as [H|[_ H]]; [lia|].
  rewrite Pos.compare_cont_spec; cbn [Pos.switch_Eq].
  change (2 ^ 52) with (Z.pos 4503599627370496) in H.
  destruct (Pos.compare_spec m 4503599627370496); try reflexivity; lia.
Qed.

(** Rounding a quotient below one gives a binary64 number between 0 and 1. *)
Lemma binary_round_aux_unit (q e : Z) (l : location) :
  0 <= q < 2 ^ (- e) -> e <= -53 -> e <= fexp prec emax (Zdigits2 q + e) ->
  is_ratio (binary_round_aux prec emax false q e l) = true.
Proof.
  intros [Hq0 Hq] He Hcan. unfold binary_round_aux.
  destruct (shr_fexp_spec q e l Hq0) as [Hm1 He1].
  pose proof (shr_fexp_canonical q e l Hq0 Hcan) as Hc1.
  destruct (shr_fexp prec emax q e l) as [r1 e1]; cbn [fst snd] in Hm1, He1, Hc1.
  assert (Hd : Zdigits2 q <= - e) by (apply Zdigits2_upper; lia).
  rewrite fexp_eq in Hm1, He1.
  set (n1 := Z.max 0 (Z.max (Zdigits2 q + e - 53) (-1074) - e)) in *.
  assert (He1' : e1 <= -53) by lia.
  assert (Hr1 : 0 <= shr_m r1 < 2 ^ (- e1)).
  { rewrite Hm1. split; [apply Z.div_pos; lia|].
    apply pow2_div_lt; try lia. replace (- e1 + n1) with (- e) by lia. exact Hq. }
  pose proof (round_nearest_even_bounds (shr_m r1) (loc_of_shr_record r1)) as Hrd.
  set (m2 := round_nearest_even (shr_m r1) (loc_of_shr_record r1)) in *.
  assert (Hm2 : 0 <= m2) by lia.
  assert (Hcan2 : e1 <= fexp prec emax (Zdigits2 m2 + e1)).
  { pose proof (Zdigits2_le (shr_m r1) m2 ltac:(lia)) as Hle.
    rewrite fexp_eq in Hc1 |- *. lia. }
  destruct (shr_fexp_spec m2 e1 loc_Exact Hm2) as [Hm3 He2].
  pose proof (shr_fexp_canonical m2 e1 loc_Exact Hm2 Hcan2) as Hc2.
  destruct (shr_fexp prec emax m2 e1 loc_Exact) as [r2 e2];
    cbn [fst snd] in Hm3, He2, Hc2.
  assert (Hd2 : Zdigits2 m2 <= - e1 + 1).
  { apply Zdigits2_upper; [lia|]. split; [lia|].
    rewrite Z.pow_add_r by lia. lia. }
  rewrite fexp_eq in Hm3, He2.
  set (n2 := Z.max 0 (Z.max (Zdigits2 m2 + e1 - 53) (-1074) - e1)) in *.
  assert (He2' : e2 <= -52) by lia.
  assert (Hr2 : 0 <= shr_m r2 <= 2 ^ (- e2)).
  { rewrite Hm3. split; [apply Z.div_pos; lia|].
    assert (m2 / 2 ^ n2 < 2 ^ (- e2) + 1); [|lia].
    apply Z.div_lt_upper_bound; [lia|].
    assert (2 ^ n2 * 2 ^ (- e2) = 2 ^ (- e1)).
    { rewrite <- Z.pow_add_r by lia. f_equal. lia. }
    assert (0 < 2 ^ n2) by lia. nia. }
  destruct (shr_m r2) as [|m3|m3] eqn:Em3; [reflexivity| |lia].
  replace (e2 <=? emax - prec) with true
    by (symmetry; apply Z.leb_le; unfold emax, prec; lia).
  unfold is_ratio. rewrite !andb_true_iff. split; [split|].
  - cbn [valid_binary]. unfold bounded, canonical_mantissa.
    apply andb_true_iff. split.
    + apply Z.eqb_eq. exact Hc2.
    + apply Z.leb_le. unfold emax, prec. lia.
  - cbn [unit_value]. apply andb_true_iff. split; [apply Z.leb_le; lia|].
    apply Z.leb_le. lia.
  - apply in_unit_interval_finite.
    destruct (Z_le_gt_dec e2 (-53)) as [|Hgt]; [now left|right].
    assert (He52 : e2 = -52) by lia. split; [exact He52|].
    replace (- e2) with 52 in Hr2 by lia. lia.
Qed.

Lemma Zdigits2_mono (a b : positive) :
  (a <= b)%positive -> Zdigits2 (Z.pos a) <= Zdigits2 (Z.pos b).
Proof. intros Hab. apply Zdigits2_le. lia. Qed.

Lemma SFdiv_core_binary_int (a b : positive) :
  (a <= b)%positive ->
  SFdiv_core_binary prec emax (Z.pos a) 0 (Z.pos b) 0 =
    ((Z.pos a * 2 ^ (- div_exp a b)) / Z.pos b,
     div_exp a b,
     new_location (Z.pos b) ((Z.pos a * 2 ^ (- div_exp a b)) mod Z.pos b)).
Proof.
  intros Hab. pose proof (Zdigits2_mono a b Hab) as Hd.
  unfold SFdiv_core_binary. rewrite fexp_eq.
  replace (Z.min (Z.max (Zdigits2 (Z.pos a) + 0 - (Zdigits2 (Z.pos b) + 0) - 53) (-1074)) (0 - 0))
    with (div_exp a b) by (unfold div_exp; lia).
  assert (He : div_exp a b <= -53) by (unfold div_exp; lia).
  replace (0 - 0 - div_exp a b) with (- div_exp a b) by lia.
  destruct (- div_exp a b) as [|s|s] eqn:Es; try lia.
  rewrite Z.shiftl_mul_pow2 by lia.
  unfold Z.div, Z.modulo.
  now destruct (Z.div_eucl (Z.pos a * 2 ^ Z.pos s) (Z.pos b)).
Qed.

Lemma new_location_0 (n : Z) : new_location n 0 = loc_Exact.
Proof. unfold new_location. now destruct (Z.even n). Qed.

(** [n / n] is [1.0]. *)
Lemma SFdiv_same (a : positive) :
  SFdiv prec emax (S754_finite false a 0) (S754_finite false a 0) = float_one.
Proof.
  cbn [SFdiv]. rewrite SFdiv_core_binary_int by lia.
  replace (div_exp a a) with (-53) by (unfold div_exp; lia).
  rewrite Z.mul_comm, Z.div_mul, Z.mod_mul by lia.
  rewrite new_location_0. reflexivity.
Qed.

(** The integer quotient has all the digits the format can hold, unless
    the exponent is already the smallest one. *)
Lemma quotient_digits (a b : positive) :
  (a <= b)%positive ->
  div_exp a b <=
    fexp prec emax
      (Zdigits2 ((Z.pos a * 2 ^ (- div_exp a b)) / Z.pos b) + div_exp a b).
Proof.
  intros Hab. pose proof (Zdigits2_mono a b Hab) as Hd.
  rewrite fexp_eq. unfold div_exp at 1.
  destruct (Z_le_gt_dec (Zdigits2 (Z.pos a) - Zdigits2 (Z.pos b) - 53) (-1074)) as [Hs|Hl];
    [lia|].
  assert (He : div_exp a b = Zdigits2 (Z.pos a) - Zdigits2 (Z.pos b) - 53)
    by (unfold div_exp; lia).
  rewrite He.
  set (da := Zdigits2 (Z.pos a)) in *. set (db := Zdigits2 (Z.pos b)) in *.
  destruct (Zdigits2_bounds (Z.pos a) ltac:(lia)) as [Ha _].
  destruct (Zdigits2_bounds (Z.pos b) ltac:(lia)) as [_ Hb].
  fold da in Ha. fold db in Hb.
  assert (Hda : 0 < da) by (unfold da; cbn [Zdigits2]; lia).
  assert (53 <= Zdigits2 (Z.pos a * 2 ^ (- (da - db - 53)) / Z.pos b)); [|lia].
  apply Zdigits2_lower; [|lia].
  apply Z.div_le_lower_bound; [lia|].
  replace (- (da - db - 53)) with ((db - da) + 53) by lia.
  rewrite Z.pow_add_r by lia.
  change (53 - 1) with 52.
  assert (H1 : 2 ^ db = 2 ^ (db - da) * 2 ^ (da - 1) * 2).
  { replace (2 ^ db) with (2 ^ ((db - da) + (da - 1) + 1)) by (f_equal; lia).
    rewrite !Z.pow_add_r by lia. lia. }
  assert (H2 : 0 < 2 ^ (db - da)) by (apply Z.pow_pos_nonneg; lia).
  assert (H3 : 0 < 2 ^ (da - 1)) by (apply Z.pow_pos_nonneg; lia).
  change (2 ^ 53) with (2 * 2 ^ 52).
  assert (H4 : Z.pos b * 2 ^ 52 <= 2 ^ db * 2 ^ 52) by nia.
  assert (H5 : 2 ^ (db - da) * 2 ^ (da - 1) <= Z.pos a * 2 ^ (db - da)) by nia.
  nia.
Qed.

(** [a / b] with [0 < a <= b] is a binary64 number between 0 and 1. *)
Lemma SFdiv_unit (a b : positive) :
  (a <= b)%positive ->
  is_ratio (SFdiv prec emax (S754_finite false a 0) (S754_finite false b 0)) = true.
Proof.
  intros Hab. destruct (Pos.eq_dec a b) as [->|Hne].
  - now rewrite SFdiv_same.
  - cbn [SFdiv]. rewrite SFdiv_core_binary_int by exact Hab.
    pose proof (Zdigits2_mono a b Hab) as Hd.
    assert (He : div_exp a b <= -53) by (unfold div_exp; lia).
    cbn [xorb]. apply binary_round_aux_unit; [|exact He|now apply quotient_digits].
    assert (0 < 2 ^ (- div_exp a b)) by (apply Z.pow_pos_nonneg; lia).
    split; [apply Z.div_pos; lia|].
    apply Z.div_lt_upper_bound; [lia|]. nia.
Qed.

Lemma Zdigits2_mul_pow2 (q k : Z) :
  0 < q -> 0 <= k -> Zdigits2 (q * 2 ^ k) = Zdigits2 q + k.
Proof.
  intros Hq Hk. destruct (Zdigits2_bounds q Hq) as [Hlo Hhi].
  pose proof (Zdigits2_nonneg q) as Hd.
  assert (Hd1 : 0 < Zdigits2 q) by (destruct q; cbn [Zdigits2] in *; lia).
  assert (Hp : 0 < 2 ^ k) by (apply Z.pow_pos_nonneg; lia).
  apply Z.le_antisymm.
  - apply Zdigits2_upper; [lia|]. split; [lia|].
    rewrite Z.pow_add_r by lia. nia.
  - apply Zdigits2_lower; [|lia].
    replace (Zdigits2 q + k - 1) with ((Zdigits2 q - 1) + k) by lia.
    rewrite Z.pow_add_r by lia. nia.
Qed.

Lemma pos_iter_xO (p k : positive) :
  Z.pos (Pos.iter xO p k) = Z.pos p * 2 ^ Z.pos k.
Proof.
  change (Pos.iter xO p k) with (shift_pos k p).
  rewrite shift_pos_correct. change (Z.pow_pos 2 k) with (2 ^ Z.pos k). lia.
Qed.

(** A mantissa of 53 digits with an exponent of the format is left as it
    is by the rounding. *)
Lemma binary_round_aux_exact (s : bool) (m : positive) (e : Z) :
  Zdigits2 (Z.pos m) = 53 -> -1074 <= e <= 971 ->
  binary_round_aux prec emax s (Z.pos m) e loc_Exact = S754_finite s m e.
Proof.
  intros Hd He. unfold binary_round_aux, shr_fexp.
  rewrite Hd, fexp_eq.
  replace (Z.max (53 + e - 53) (-1074) - e) with 0 by lia.
  cbn [shr shr_record_of_loc shr_m loc_of_shr_record round_nearest_even].
  rewrite Hd, fexp_eq.
  replace (Z.max (53 + e - 53) (-1074) - e) with 0 by lia.
  cbn [shr shr_record_of_loc shr_m].
  replace (e <=? emax - prec) with true
    by (symmetry; apply Z.leb_le; unfold emax, prec; lia).
  reflexivity.
Qed.

(** [float(a)] for a positive [a] below [2 ^ 53]: exact, with the mantissa
    shifted to 53 digits. *)
Lemma float_from_int_small (a : positive) :
  Z.pos a < 2 ^ 53 ->
  exists A : positive,
    float_from_int (Z.pos a) = S754_finite false A (Zdigits2 (Z.pos a) - 53) /\
    Z.pos A = Z.pos a * 2 ^ (53 - Zdigits2 (Z.pos a)) /\
    Zdigits2 (Z.pos A) = 53.
Proof.
  intros Ha.
  assert (Hd : 0 < Zdigits2 (Z.pos a) <= 53).
  { split; [cbn [Zdigits2]; lia|]. apply Zdigits2_upper; lia. }
  unfold float_from_int, binary_normalize, binary_round, shl_align.
  change (Z.pos (digits2_pos a)) with (Zdigits2 (Z.pos a)).
  rewrite fexp_eq.
  set (d := Zdigits2 (Z.pos a)) in *.
  replace (Z.max (d + 0 - 53) (-1074) - 0) with (d - 53) by lia.
  replace (Z.max (d + 0 - 53) (-1074)) with (d - 53) by lia.
  destruct (d - 53) as [|k|k] eqn:Ek; try lia.
  - exists a. assert (Hd53 : d = 53) by lia.
    rewrite binary_round_aux_exact by (fold d; lia).
    split; [reflexivity|]. split; [|exact Hd53].
    replace (53 - d) with 0 by lia. lia.
  - exists (Pos.iter xO a k).
    assert (Hk : Z.pos k = 53 - d) by lia.
    assert (HA : Z.pos (Pos.iter xO a k) = Z.pos a * 2 ^ (53 - d))
      by (rewrite pos_iter_xO; now rewrite Hk).
    assert (HdA : Zdigits2 (Z.pos (Pos.iter xO a k)) = 53).
    { rewrite HA, Zdigits2_mul_pow2 by lia. fold d. lia. }
    rewrite binary_round_aux_exact by (try exact HdA; lia).
    split; [reflexivity|]. split; assumption.
Qed.

Lemma new_location_double (b r : Z) :
  0 < b -> 0 <= r < b -> new_location (b * 2) (r * 2) = new_location b r.
Proof.
  intros Hb Hr. unfold new_location.
  assert (Hev : Z.even (b * 2) = true) by (rewrite Z.even_mul; apply orb_true_r).
  change (IntDef.Z.even (b * 2)) with (Z.even (b * 2)). rewrite Hev.
  change (IntDef.Z.even b) with (Z.even b).
  unfold new_location_even, new_location_odd.
  destruct (Z.eq_dec r 0) as [->|Hr0]; [now destruct (Z.even b)|].
  replace (r * 2 =? 0) with false by (symmetry; apply Z.eqb_neq; lia).
  destruct (Z.even b) eqn:Eb;
    replace (r =? 0) with false by (symmetry; apply Z.eqb_neq; lia);
    apply (f_equal loc_Inexact).
  - destruct (Z.compare_spec (2 * r) b), (Z.compare_spec (2 * (r * 2)) (b * 2));
      try reflexivity; lia.
  - assert (Hodd : Z.odd b = true) by (rewrite <- Z.negb_even, Eb; reflexivity).
    apply Z.odd_spec in Hodd. destruct Hodd as [c Hc].
    destruct (Z.compare_spec (2 * (r * 2)) (b * 2)),
             (Z.compare_spec (2 * r + 1) b); try reflexivity; lia.
Qed.

Lemma new_location_scale (b r k : Z) :
  0 < b -> 0 <= r < b -> 0 <= k ->
  new_location (b * 2 ^ k) (r * 2 ^ k) = new_location b r.
Proof.
  intros Hb Hr Hk. revert k Hk.
  apply (natlike_ind (fun k => new_location (b * 2 ^ k) (r * 2 ^ k) = new_location b r)).
  - now rewrite !Z.mul_1_r.
  - intros k Hk IH. rewrite Z.pow_succ_r by exact Hk.
    assert (0 < 2 ^ k) by (apply Z.pow_pos_nonneg; lia).
    replace (b * (2 * 2 ^ k)) with ((b * 2 ^ k) * 2) by lia.
    replace (r * (2 * 2 ^ k)) with ((r * 2 ^ k) * 2) by lia.
    rewrite new_location_double by nia. exact IH.
Qed.

(** For counts below [2 ^ 53], dividing them as exact integers is dividing
    the two floats they convert to. *)
Lemma ratio_float_small (a b : positive) :
  (a <= b)%positive -> Z.pos b < 2 ^ 53 ->
  ratio_float (Z.pos a) (Z.pos b) =
    SFdiv prec emax (float_from_int (Z.pos a)) (float_from_int (Z.pos b)).
Proof.
  intros Hab Hb.
  destruct (float_from_int_small a ltac:(lia)) as (A & -> & HA & HdA).
  destruct (float_from_int_small b Hb) as (B & -> & HB & HdB).
  unfold ratio_float. cbn [float_of_int SFdiv].
  rewrite SFdiv_core_binary_int by exact Hab.
  pose proof (Zdigits2_mono a b Hab) as Hd.
  assert (Hdb : Zdigits2 (Z.pos b) <= 53) by (apply Zdigits2_upper; lia).
  assert (Hda : 0 < Zdigits2 (Z.pos a)) by (cbn [Zdigits2]; lia).
  set (da := Zdigits2 (Z.pos a)) in *. set (db := Zdigits2 (Z.pos b)) in *.
  assert (He : div_exp a b = da - db - 53) by (unfold div_exp; fold da db; lia).
  unfold SFdiv_core_binary. rewrite HdA, HdB, fexp_eq.
  replace (Z.min (Z.max (53 + (da - 53) - (53 + (db - 53)) - 53) (-1074))
             (da - 53 - (db - 53))) with (da - db - 53) by lia.
  replace (da - 53 - (db - 53) - (da - db - 53)) with 53 by lia.
  rewrite Z.shiftl_mul_pow2 by lia.
  rewrite He, HA, HB.
  replace (- (da - db - 53)) with (53 + db - da) by lia.
  assert (HX : Z.pos a * 2 ^ (53 - da) * 2 ^ 53 =
               (Z.pos a * 2 ^ (53 + db - da)) * 2 ^ (53 - db)).
  { rewrite <- !Z.mul_assoc, <- !Z.pow_add_r by lia. do 2 f_equal. lia. }
  rewrite HX.
  assert (Hp : 0 < 2 ^ (53 - db)) by (apply Z.pow_pos_nonneg; lia).
  pose proof (Z.div_mul_cancel_r (Z.pos a * 2 ^ (53 + db - da)) (Z.pos b) (2 ^ (53 - db))
                ltac:(lia) ltac:(lia)) as Hq.
  pose proof (Z.mul_mod_distr_r (Z.pos a * 2 ^ (53 + db - da)) (Z.pos b) (2 ^ (53 - db))) as Hr.
  unfold Z.div, Z.modulo in Hq, Hr |- *.
  destruct (Z.div_eucl (Z.pos a * 2 ^ (53 + db - da) * 2 ^ (53 - db))
              (Z.pos b * 2 ^ (53 - db))) as [q' r'].
  pose proof (Z.mod_pos_bound (Z.pos a * 2 ^ (53 + db - da)) (Z.pos b) ltac:(lia)) as Hbound.
  unfold Z.modulo in Hbound.
  destruct (Z.div_eucl (Z.pos a * 2 ^ (53 + db - da)) (Z.pos b)) as [q r].
  cbv beta iota in Hq, Hr, Hbound |- *.
  specialize (Hr ltac:(lia) ltac:(lia)).
  subst q' r'. rewrite new_location_scale by lia. reflexivity.
Qed.

End Binary64.

(** ** True division *)

Section TrueDivision.

Local Open Scope Z_scope.

Lemma ratio_float_unit (a b : Z) :
  0 <= a <= b -> 0 < b -> is_ratio (ratio_float a b) = true.
Proof.
  intros [Ha Hab] Hb. unfold ratio_float.
  destruct b as [|b|b]; try lia.
  destruct a as [|a|a]; try lia; [reflexivity|].
  apply SFdiv_unit. lia.
Qed.

Lemma ratio_float_same (a : Z) : 0 < a -> ratio_float a a = float_one.
Proof. destruct a as [|a|a]; try lia. intros _. apply SFdiv_same. Qed.

Lemma ratio_float_0 (b : Z) : 0 < b -> ratio_float 0 b = float_zero.
Proof. destruct b as [|b|b]; try lia. reflexivity. Qed.

(** A count divided by a larger, positive count: no exception. *)
Lemma int_truediv_ratio (a b : Z) :
  0 <= a <= b -> 0 < b -> int_truediv a b = Return (ratio_float a b).
Proof.
  intros Hab Hb. unfold int_truediv.
  replace (b =? 0) with false by (symmetry; apply Z.eqb_neq; lia).
  pose proof (ratio_float_unit a b Hab Hb) as Hu.
  destruct (ratio_float a b) as [s|s| |s m e]; try reflexivity.
  destruct s; discriminate Hu.
Qed.

(** Counts that fit in 53 bits: the division is the division of the two
    converted floats. *)
Lemma int_truediv_small (a b : Z) :
  0 < a <= b -> b < 2 ^ 53 ->
  int_truediv a b = Return (SFdiv prec emax (float_from_int a) (float_from_int b)).
Proof.
  intros Hab Hb. rewrite int_truediv_ratio by lia.
  destruct a as [|a|a]; try lia. destruct b as [|b|b]; try lia.
  now rewrite ratio_float_small by lia.
Qed.

Lemma int_truediv_0 (a : Z) : int_truediv a 0 = Raise ZeroDivisionError.
Proof. reflexivity. Qed.

End TrueDivision.

(** ** Splitting *)

Section Splitting.


Lemma emit_filter (cur : pystr) : emit cur = filter nonempty [cur].
Proof. now destruct cur. Qed.

(** The scan and the tokens agree, whatever word is being read. *)
Lemma split_scan_tokens (s : pystr) :
  forall cur, split_scan cur s = filter nonempty (glue cur (tokens s)).
Proof.
  induction s as [|c s IH]; intros cur; cbn [split_scan tokens].
  - cbn [glue]. rewrite app_nil_r. apply emit_filter.
  - destruct (isspace c).
    + cbn [glue]. rewrite app_nil_r, IH, emit_filter.
      change (filter nonempty (cur :: tokens s))
        with (filter nonempty ([cur] ++ tokens s)).
      rewrite filter_app. f_equal.
      destruct (tokens s); reflexivity.
    + rewrite IH. destruct (tokens s) as [|t ts]; cbn [glue].
      * reflexivity.
      * now rewrite <- app_assoc.
Qed.

(** [str.split()] yields the words of the specification. *)
Lemma str_split_words (s : pystr) : str_split s = words s.
Proof.
  unfold str_split, words. rewrite split_scan_tokens.
  destruct (tokens s); reflexivity.
Qed.

Lemma split_scan_whitespace (w s : pystr) :
  is_whitespace w = true -> split_scan [] (w ++ s) = split_scan [] s.
Proof.
  induction w as [|c w IH]; intros Hw; [reflexivity|].
  apply andb_prop in Hw as [Hc Hw]. cbn [app split_scan]. rewrite Hc.
  now apply IH.
Qed.

Lemma split_scan_separator (cur w s : pystr) :
  is_separator w = true -> split_scan cur (w ++ s) = emit cur ++ split_scan [] s.
Proof.
  destruct w as [|c w]; [discriminate|]. intros Hw.
  apply andb_prop in Hw as [_ Hw]. apply andb_prop in Hw as [Hc Hw].
  cbn [app split_scan]. rewrite Hc. f_equal. now apply split_scan_whitespace.
Qed.

Lemma split_scan_trailing (s w : pystr) :
  is_whitespace w = true -> forall cur, split_scan cur (s ++ w) = split_scan cur s.
Proof.
  intros Hw. induction s as [|c s IH]; intros cur.
  - cbn [app split_scan]. destruct w as [|c w]; [reflexivity|].
    rewrite <- (app_nil_r (c :: w)), split_scan_separator by exact Hw.
    apply app_nil_r.
  - cbn [app split_scan]. destruct (isspace c); now rewrite IH.
Qed.

Lemma split_scan_change_separator (a sep1 sep2 b : pystr) :
  is_separator sep1 = true -> is_separator sep2 = true ->
  forall cur, split_scan cur (a ++ sep1 ++ b) = split_scan cur (a ++ sep2 ++ b).
Proof.
  intros H1 H2. induction a as [|c a IH]; intros cur.
  - cbn [app]. now rewrite !split_scan_separator.
  - cbn [app split_scan]. destruct (isspace c); now rewrite IH.
Qed.

Lemma split_scan_word (w s : pystr) :
  forallb (fun c => negb (isspace c)) w = true ->
  forall cur, split_scan cur (w ++ s) = split_scan (cur ++ w) s.
Proof.
  induction w as [|c w IH]; intros Hw cur.
  - now rewrite app_nil_r.
  - apply andb_prop in Hw as [Hc Hw]. cbn [app split_scan].
    apply negb_true_iff in Hc. rewrite Hc, IH by exact Hw.
    now rewrite <- app_assoc.
Qed.

(** Whitespace around a text is dropped. *)
Lemma str_split_padding (w1 s w2 : pystr) :
  is_whitespace w1 = true -> is_whitespace w2 = true ->
  str_split (w1 ++ s ++ w2) = str_split s.
Proof.
  intros H1 H2. unfold str_split.
  now rewrite split_scan_whitespace, split_scan_trailing.
Qed.

(** A word, a separator, a text: the word comes first. *)
Lemma str_split_first_word (w sep s : pystr) :
  is_word w = true -> is_separator sep = true ->
  str_split (w ++ sep ++ s) = w :: str_split s.
Proof.
  intros Hw Hsep. apply andb_prop in Hw as [Hne Hw]. unfold str_split.
  rewrite split_scan_word, split_scan_separator by assumption.
  cbn [app]. destruct w; [discriminate|reflexivity].
Qed.

(** A run without whitespace is one word, or nothing when it is empty. *)
Lemma str_split_no_space (w : pystr) :
  forallb (fun c => negb (isspace c)) w = true -> str_split w = emit w.
Proof.
  intros Hw. unfold str_split.
  rewrite <- (app_nil_r w) at 1. now rewrite split_scan_word.
Qed.

(** Words with their separators, and a last word that may have none: the
    split gives the words back. *)
Lemma str_split_spaced (pairs : list (pystr * pystr)) (last : pystr) :
  forallb (fun p => is_word (fst p) && is_separator (snd p)) pairs = true ->
  forallb (fun c => negb (isspace c)) last = true ->
  str_split (spaced pairs ++ last) = map fst pairs ++ emit last.
Proof.
  intros Hpairs Hlast. induction pairs as [|[w sep] pairs IH].
  - now apply str_split_no_space.
  - cbn [forallb fst snd] in Hpairs.
    apply andb_prop in Hpairs as [Hp Hrest]. apply andb_prop in Hp as [Hw Hsep].
    cbn [spaced map fst]. rewrite <- !app_assoc.
    rewrite str_split_first_word by assumption.
    cbn [app]. f_equal. now apply IH.
Qed.

End Splitting.

(** ** The call *)

Section Call.

Local Open Scope Z_scope.

Lemma len_cons {A : Type} (x : A) (xs : list A) : len (x :: xs) = len xs + 1.
Proof. unfold len. cbn [List.length]. lia. Qed.

Lemma len_nonneg {A : Type} (xs : list A) : 0 <= len xs.
Proof. unfold len. lia. Qed.

Lemma len_filter_le {A : Type} (f : A -> bool) (xs : list A) :
  len (filter f xs) <= len xs.
Proof. unfold len. pose proof (filter_length_le f xs). lia. Qed.

(** The filter of the comprehension keeps what is not a stopword. *)
Lemma keep_not_stopword (i : pystr) :
  str_neb i the && str_neb i a_ = negb (is_stopword i).
Proof.
  unfold is_stopword, stopwords, str_neb, the, a_. cbn [existsb].
  destruct (str_eqb i (py "the")), (str_eqb i (py "a")); reflexivity.
Qed.

(** The loop adds the number of long words to [l] and touches nothing
    else. *)
Lemma count_loop (ws : list pystr) :
  forall (l : Z) (g : module_state),
    for_each ws count_long l g = (Return (l + len (filter is_long ws)), g).
Proof.
  induction ws as [|i ws IH]; intros l g; cbn [for_each filter].
  - unfold ret, len. cbn [List.length]. now rewrite Z.add_0_r.
  - unfold bind, count_long. change (is_long i) with (8 <? len i).
    destruct (8 <? len i); unfold ret; rewrite IH; [|reflexivity].
    rewrite len_cons.
    replace (l + 1 + len (filter is_long ws))
      with (l + (len (filter is_long ws) + 1)) by lia.
    reflexivity.
Qed.

(** What a call computes, and in which state it ends. *)
Lemma shortLong_run (s : pystr) (g : module_state) :
  shortLong s g = (int_truediv (long_count s) (qualifying_count s), g).
Proof.
  unfold shortLong, bind, ret, lift. rewrite count_loop.
  rewrite str_split_words.
  rewrite (filter_ext _ _ keep_not_stopword).
  reflexivity.
Qed.

Lemma counts_bounds (s : pystr) : 0 <= long_count s <= qualifying_count s.
Proof.
  unfold long_count, qualifying_count. split.
  - apply len_nonneg.
  - apply len_filter_le.
Qed.

(** With a qualifying word, the call returns the rounded ratio. *)
Lemma shortLong_returns (s : pystr) (g : module_state) :
  0 < qualifying_count s ->
  shortLong s g = (Return (ratio_float (long_count s) (qualifying_count s)), g).
Proof.
  intros HQ. rewrite shortLong_run, int_truediv_ratio; [reflexivity| |exact HQ].
  apply counts_bounds.
Qed.

(** The call depends on its argument through [str.split()] only. *)
Lemma shortLong_split_ext (s t : pystr) :
  str_split s = str_split t -> shortLong s = shortLong t.
Proof. intros H. unfold shortLong. now rewrite H. Qed.

Lemma qualifying_words_first_word (w sep s : pystr) :
  is_word w = true -> is_separator sep = true -> is_stopword w = false ->
  qualifying_words (w ++ sep ++ s) = w :: qualifying_words s.
Proof.
  intros Hw Hsep Hstop. unfold qualifying_words.
  rewrite <- !str_split_words, str_split_first_word by assumption.
  cbn [filter]. now rewrite Hstop.
Qed.

(** The [#LOAD STRING] block leaves the whole file in [example]. *)
Lemma load_string_example (lines : list pystr) (g : module_state) :
  load_string lines g =
    (Return tt, {| example := List.concat lines; printed := printed g |}).
Proof.
  unfold load_string, bind, set_example. cbn [printed].
  assert (H : forall (xs : list pystr) (ex : pystr) (p : list pystr),
             for_each xs
               (fun line (_ : unit) => e <- get_example ;; set_example (e ++ line))
               tt {| example := ex; printed := p |} =
             (Return tt, {| example := ex ++ List.concat xs; printed := p |})).
  { intros xs. induction xs as [|x xs IH]; intros ex p; cbn [for_each List.concat].
    - now rewrite app_nil_r.
    - unfold bind, get_example, set_example. cbn [example printed].
      rewrite IH. now rewrite <- app_assoc. }
  now rewrite H.
Qed.

(** The script up to its first call: the text is loaded and the heading
    printed around the call, and the call itself changes neither. *)
Lemma script_run (lines : list pystr) (g : module_state) :
  script lines g =
    (int_truediv (long_count (List.concat lines))
                 (qualifying_count (List.concat lines)),
     {| example := List.concat lines;
        printed := printed g ++ [py "Pure Python: "] |}).
Proof.
  unfold script. unfold bind at 1. rewrite load_string_example.
  unfold bind, print, get_example. cbn [example printed].
  now rewrite shortLong_run.
Qed.

End Call.

(** ** Properties of [shortLong] *)

Section Properties.

Local Open Scope Z_scope.

(** Rounded ratios of small counts, as the interpreter prints them:
    [1/3 = 0x3FD5555555555555], [2/3 = 0x3FE5555555555555], [1/2 = 0.5]. *)
Example ratio_float_examples :
  ratio_float 1 3 = S754_finite false 6004799503160661 (-54) /\
  ratio_float 2 3 = S754_finite false 6004799503160661 (-53) /\
  ratio_float 1 2 = S754_finite false 4503599627370496 (-53) /\
  ratio_float 3 3 = float_one /\
  ratio_float 0 3 = float_zero.
Proof. repeat split; reflexivity. Qed.

(** C1: for every text with at least one qualifying word (the words of the
    whitespace split, empty tokens discarded, exact matches of "the" and
    "a" removed), [shortLong] returns [L / Q] as a float, [L] being the
    number of qualifying words of more than 8 characters and [Q] the
    number of qualifying words. *)
Theorem shortLong_is_ratio (s : pystr) (g : module_state) :
  0 < qualifying_count s ->
  result_of (shortLong s) g =
    Return (ratio_float (long_count s) (qualifying_count s)).
Proof.
  intros HQ. unfold result_of. now rewrite shortLong_returns.
Qed.

Lemma shortLong_is_ratio_witness :
  0 < qualifying_count (py "internationalization a localization cat") /\
  result_of (shortLong (py "internationalization a localization cat")) g0 =
    Return (ratio_float 2 3).
Proof.
  split; [reflexivity|].
  apply (shortLong_is_ratio (py "internationalization a localization cat") g0).
  reflexivity.
Defined.

(** C2: for every text with at least one qualifying word, the value that
    [shortLong] returns lies in the closed interval [0.0, 1.0]. *)
Theorem shortLong_in_unit_interval (s : pystr) (g : module_state) :
  0 < qualifying_count s ->
  exists x : pyfloat,
    result_of (shortLong s) g = Return x /\
    valid_binary prec emax x = true /\
    float_le float_zero x = true /\ float_le x float_one = true.
Proof.
  intros HQ. exists (ratio_float (long_count s) (qualifying_count s)).
  split.
  - unfold result_of. now rewrite shortLong_returns.
  - pose proof (ratio_float_unit _ _ (counts_bounds s) HQ) as Hu.
    unfold is_ratio, in_unit_interval in Hu.
    rewrite !andb_true_iff in Hu. tauto.
Qed.

Lemma shortLong_in_unit_interval_witness :
  exists x : pyfloat,
    result_of (shortLong (py "a hippopotamus sat on the cat")) g0 = Return x /\
    valid_binary prec emax x = true /\
    float_le float_zero x = true /\ float_le x float_one = true.
Proof.
  apply (shortLong_in_unit_interval (py "a hippopotamus sat on the cat") g0).
  reflexivity.
Defined.

(** C3, as the specification states it, fails: for the empty string and
    for "the a" the caller of [shortLong] is not handed the error of the
    specification's policy, but the exception of a division by zero that
    nothing guards. *)
Lemma shortLong_has_no_error_policy :
  handed_to_caller (result_of (shortLong (py "")) g0) <>
    computeLongWordRatio (py "") /\
  handed_to_caller (result_of (shortLong (py "the a")) g0) <>
    computeLongWordRatio (py "the a").
Proof. split; intros H; vm_compute in H; discriminate H. Qed.

(** C3, amended: for every text without a qualifying word (empty, all
    whitespace, or made of the stopwords "the" and "a" only), [shortLong]
    tests nothing and has no error of its own: the division
    [l / len(split)] is made with a zero divisor and the interpreter's
    [ZeroDivisionError] leaves the function.  No float is returned, so
    neither NaN nor an infinity; in particular for "the a" and for the
    empty string. *)
Theorem shortLong_no_qualifying_word :
  (forall (s : pystr) (g : module_state),
      qualifying_count s = 0 ->
      result_of (shortLong s) g = Raise ZeroDivisionError /\
      result_of (shortLong s) g = int_truediv (long_count s) 0 /\
      handed_to_caller (result_of (shortLong s) g) =
        inl (InterpreterException ZeroDivisionError)) /\
  (forall g : module_state,
      result_of (shortLong (py "the a")) g = Raise ZeroDivisionError) /\
  (forall g : module_state,
      result_of (shortLong (py "")) g = Raise ZeroDivisionError).
Proof.
  assert (H : forall (s : pystr) (g : module_state),
             qualifying_count s = 0 ->
             result_of (shortLong s) g = Raise ZeroDivisionError).
  { intros s g HQ. unfold result_of. now rewrite shortLong_run, HQ. }
  split; [|split; intros g; now apply H].
  intros s g HQ. split; [now apply H|]. split.
  - unfold result_of. now rewrite shortLong_run, HQ.
  - now rewrite H.
Qed.

Lemma shortLong_no_qualifying_word_witness :
  qualifying_count (NEWLINE ++ py " the " ++ TAB ++ py "a  ") = 0 /\
  result_of (shortLong (NEWLINE ++ py " the " ++ TAB ++ py "a  ")) g0 =
    Raise ZeroDivisionError.
Proof.
  split; [reflexivity|].
  apply (proj1 (proj1 shortLong_no_qualifying_word
                  (NEWLINE ++ py " the " ++ TAB ++ py "a  ") g0 eq_refl)).
Defined.

(** C4, as the specification states it, fails: "The" is kept, yet the
    result for "The cat sat" does not differ from the result for
    "the cat sat". *)
Lemma The_cat_sat_result_differs_fails :
  ~ (In (py "The")
        (filter (fun i => str_neb i the && str_neb i a_) (str_split The_cat_sat)) /\
     result_of (shortLong The_cat_sat) g0 <> result_of (shortLong the_cat_sat) g0).
Proof. intros [_ Hne]. apply Hne. reflexivity. Qed.

(** C4, amended: the stopword filter is exact-case, so "The cat sat" keeps
    "The" and has three qualifying words where "the cat sat" has two; none
    of them is long, and both calls return 0.0. *)
Theorem The_is_a_qualifying_word :
  filter (fun i => str_neb i the && str_neb i a_) (str_split The_cat_sat) =
    [py "The"; py "cat"; py "sat"] /\
  filter (fun i => str_neb i the && str_neb i a_) (str_split the_cat_sat) =
    [py "cat"; py "sat"] /\
  (forall g : module_state,
      result_of (shortLong The_cat_sat) g = Return float_zero /\
      result_of (shortLong the_cat_sat) g = Return float_zero).
Proof.
  split; [reflexivity|]. split; [reflexivity|].
  intros g. unfold result_of. now rewrite !shortLong_run.
Qed.

(** C5: space, tab and newline all separate words, and a run of whitespace
    separates like a single character: each of the three splits two words
    apart, a text of words with any separators between them (and any
    whitespace in front) is split into exactly its words, replacing one
    separator by another does not change the result, and the irregularly
    spaced "the  cat\tsat\n" is split into the three words of
    "the cat sat" and returns the value "the cat sat" returns, 0.0. *)
Theorem whitespace_normalization :
  (is_separator (py " ") = true /\ is_separator TAB = true /\
   is_separator NEWLINE = true) /\
  (forall (a b sep1 sep2 : pystr) (g : module_state),
      is_separator sep1 = true -> is_separator sep2 = true ->
      shortLong (a ++ sep1 ++ b) g = shortLong (a ++ sep2 ++ b) g) /\
  (forall g : module_state,
      shortLong the_cat_sat_irregular g = shortLong the_cat_sat g) /\
  (forall (c : codepoint) (w1 w2 : pystr),
      In c [32; 9; 10]%N -> is_word w1 = true -> is_word w2 = true ->
      str_split (w1 ++ [c] ++ w2) = [w1; w2]) /\
  (forall (lead : pystr) (pairs : list (pystr * pystr)) (last : pystr),
      is_whitespace lead = true ->
      forallb (fun p => is_word (fst p) && is_separator (snd p)) pairs = true ->
      forallb (fun c => negb (isspace c)) last = true ->
      str_split (lead ++ spaced pairs ++ last) = map fst pairs ++ emit last) /\
  (str_split the_cat_sat_irregular = [py "the"; py "cat"; py "sat"] /\
   str_split the_cat_sat = [py "the"; py "cat"; py "sat"]) /\
  (forall g : module_state,
      shortLong the_cat_sat_irregular g = (Return float_zero, g) /\
      shortLong the_cat_sat g = (Return float_zero, g)).
Proof.
  split; [|split; [|split; [|split; [|split; [|split]]]]].
  - split; [reflexivity|]. split; reflexivity.
  - intros a b sep1 sep2 g H1 H2.
    rewrite (shortLong_split_ext (a ++ sep1 ++ b) (a ++ sep2 ++ b)); [reflexivity|].
    now apply split_scan_change_separator.
  - intros g.
    now rewrite (shortLong_split_ext the_cat_sat_irregular the_cat_sat).
  - intros c w1 w2 Hc Hw1 Hw2.
    assert (Hsep : is_separator [c] = true).
    { cbn [In] in Hc. destruct Hc as [<-|[<-|[<-|[]]]]; reflexivity. }
    rewrite str_split_first_word by assumption. f_equal.
    apply andb_prop in Hw2 as [Hne Hw2].
    rewrite str_split_no_space by exact Hw2.
    destruct w2; [discriminate|reflexivity].
  - intros lead pairs last Hlead Hpairs Hlast. unfold str_split.
    rewrite split_scan_whitespace by exact Hlead.
    now apply str_split_spaced.
  - split; reflexivity.
  - intros g. rewrite !shortLong_run. split; reflexivity.
Qed.

Lemma whitespace_normalization_witness :
  (is_separator (py "  " ++ TAB) = true /\ is_separator NEWLINE = true /\
   shortLong (py "hippopotamus" ++ (py "  " ++ TAB) ++ py "sat") g0 =
     shortLong (py "hippopotamus" ++ NEWLINE ++ py "sat") g0) /\
  str_split (py "cat" ++ [9%N] ++ py "hippopotamus") =
    [py "cat"; py "hippopotamus"] /\
  str_split
    (NEWLINE ++
     spaced [(py "the", py "  "); (py "cat", TAB)] ++ py "sat") =
    map fst [(py "the", py "  "); (py "cat", TAB)] ++ emit (py "sat").
Proof.
  split; [|split].
  - split; [reflexivity|split; [reflexivity|]].
    apply (proj1 (proj2 whitespace_normalization)); reflexivity.
  - apply (proj1 (proj2 (proj2 (proj2 whitespace_normalization))));
      [cbn [In]; auto|reflexivity|reflexivity].
  - apply (proj1 (proj2 (proj2 (proj2 (proj2 whitespace_normalization)))));
      reflexivity.
Defined.

(** C6: the length that is compared with 8 is the number of code points of
    the word, not the number of its bytes: a qualifying word in front of a
    text adds one to the number of long words exactly when it has 9 or
    more code points, whatever its encoded size. *)
Theorem long_word_test_counts_code_points
    (w sep s : pystr) (g : module_state) :
  is_word w = true -> is_separator sep = true -> is_stopword w = false ->
  result_of (shortLong (w ++ sep ++ s)) g =
    int_truediv
      (long_count s + (if 9 <=? Z.of_nat (List.length w) then 1 else 0))
      (qualifying_count s + 1).
Proof.
  intros Hw Hsep Hstop. unfold result_of. rewrite shortLong_run.
  unfold long_count, qualifying_count.
  rewrite (qualifying_words_first_word w sep s Hw Hsep Hstop).
  cbn [filter fst]. rewrite (len_cons w (qualifying_words s)).
  change (is_long w) with (8 <? Z.of_nat (List.length w)).
  destruct (Z.ltb_spec 8 (Z.of_nat (List.length w))) as [Hl|Hl];
    destruct (Z.leb_spec 9 (Z.of_nat (List.length w))) as [Hl'|Hl']; try lia.
  - now rewrite len_cons.
  - now rewrite Z.add_0_r.
Qed.

Lemma long_word_test_counts_code_points_witness :
  (utf8_len e_acute_8 = 16 /\ len e_acute_8 = 8 /\
   result_of (shortLong (e_acute_8 ++ py " " ++ py "hippopotamus")) g0 =
     Return (ratio_float 1 2)) /\
  (utf8_len e_acute_9 = 18 /\ len e_acute_9 = 9 /\
   result_of (shortLong (e_acute_9 ++ py " " ++ py "hippopotamus")) g0 =
     Return float_one).
Proof.
  split; (split; [reflexivity|split; [reflexivity|]]).
  - rewrite (long_word_test_counts_code_points
               e_acute_8 (py " ") (py "hippopotamus") g0); reflexivity.
  - rewrite (long_word_test_counts_code_points
               e_acute_9 (py " ") (py "hippopotamus") g0); reflexivity.
Defined.

(** C7: [shortLong("hippopotamus")] returns 1.0: one qualifying word, of
    length 12. *)
Theorem shortLong_hippopotamus (g : module_state) :
  str_split (py "hippopotamus") = [py "hippopotamus"] /\
  len (py "hippopotamus") = 12 /\
  result_of (shortLong (py "hippopotamus")) g = Return float_one.
Proof.
  split; [reflexivity|]. split; [reflexivity|].
  unfold result_of. now rewrite shortLong_run.
Qed.

(** C8: a call leaves the state around it as it found it, and its result
    does not depend on that state: two calls on the same text give the
    same float, bit for bit, or raise the same exception. *)
Theorem shortLong_pure (s : pystr) (g g' : module_state) :
  state_after (shortLong s) g = g /\
  result_of (shortLong s) g = result_of (shortLong s) g' /\
  (r1 <- shortLong s ;; r2 <- shortLong s ;; ret (r1, r2)) g =
    (match result_of (shortLong s) g with
     | Return r => Return (r, r)
     | Raise e => Raise e
     end, g).
Proof.
  unfold state_after, result_of. rewrite !shortLong_run. cbn [fst snd].
  split; [reflexivity|]. split; [reflexivity|].
  unfold bind at 1. rewrite shortLong_run.
  destruct (int_truediv (long_count s) (qualifying_count s)) as [r|e] eqn:E;
    [|reflexivity].
  unfold bind. now rewrite shortLong_run, E.
Qed.

(** C9: [shortLong] raises [ZeroDivisionError] if and only if there is no
    qualifying word; with at least one, it returns a float and raises
    nothing. *)
Theorem shortLong_raises_iff (s : pystr) (g : module_state) :
  (result_of (shortLong s) g = Raise ZeroDivisionError <->
   qualifying_count s = 0) /\
  (0 < qualifying_count s ->
   exists x : pyfloat, result_of (shortLong s) g = Return x).
Proof.
  assert (Hret : 0 < qualifying_count s ->
                 exists x : pyfloat, result_of (shortLong s) g = Return x).
  { intros HQ. eexists. unfold result_of. now rewrite shortLong_returns. }
  split; [split|exact Hret].
  - intros Hraise.
    destruct (Z.eq_dec (qualifying_count s) 0) as [|Hne]; [assumption|].
    destruct Hret as [x Hx].
    + pose proof (counts_bounds s). lia.
    + congruence.
  - intros HQ. unfold result_of. now rewrite shortLong_run, HQ.
Qed.

Lemma shortLong_raises_iff_witness :
  (exists x : pyfloat, result_of (shortLong (py "the cat sat")) g0 = Return x) /\
  result_of (shortLong (py "the a the")) g0 = Raise ZeroDivisionError.
Proof.
  split.
  - apply (proj2 (shortLong_raises_iff (py "the cat sat") g0)). reflexivity.
  - apply (proj1 (shortLong_raises_iff (py "the a the") g0)). reflexivity.
Defined.

(** C10: whitespace in front of a text and behind it changes nothing: for
    whitespace-only [w1] and [w2], possibly empty, [shortLong(w1 + s + w2)]
    is [shortLong(s)], the same float or the same exception. *)
Theorem shortLong_padding (s w1 w2 : pystr) (g : module_state) :
  is_whitespace w1 = true -> is_whitespace w2 = true ->
  shortLong (w1 ++ s ++ w2) g = shortLong s g.
Proof.
  intros H1 H2.
  rewrite (shortLong_split_ext (w1 ++ s ++ w2) s); [reflexivity|].
  now apply str_split_padding.
Qed.

Lemma shortLong_padding_witness :
  is_whitespace (TAB ++ py "  ") = true /\ is_whitespace [] = true /\
  shortLong ((TAB ++ py "  ") ++ py "a hippopotamus sat" ++ []) g0 =
    shortLong (py "a hippopotamus sat") g0.
Proof.
  split; [reflexivity|split; [reflexivity|]].
  apply (shortLong_padding (py "a hippopotamus sat") (TAB ++ py "  ") [] g0);
    reflexivity.
Defined.

End Properties.

(** ** More on splitting and counting *)

Section Composition.

Local Open Scope Z_scope.

Lemma emit_words (cur : pystr) :
  forallb (fun c => negb (isspace c)) cur = true ->
  Forall (fun w => is_word w = true) (emit cur).
Proof.
  intros Hcur. destruct cur as [|c cur]; cbn [emit]; constructor; [|constructor].
  unfold is_word. cbn [nonempty andb]. exact Hcur.
Qed.

Lemma split_scan_words (s : pystr) :
  forall cur,
    forallb (fun c => negb (isspace c)) cur = true ->
    Forall (fun w => is_word w = true) (split_scan cur s).
Proof.
  induction s as [|c s IH]; intros cur Hcur; cbn [split_scan].
  - now apply emit_words.
  - destruct (isspace c) eqn:Hc.
    + apply Forall_app. split; [now apply emit_words|now apply IH].
    + apply IH. rewrite forallb_app, Hcur. cbn [forallb]. now rewrite Hc.
Qed.

Lemma split_scan_app_separator (a sep b : pystr) :
  is_separator sep = true ->
  forall cur,
    split_scan cur (a ++ sep ++ b) = split_scan cur a ++ split_scan [] b.
Proof.
  intros Hsep. induction a as [|c a IH]; intros cur.
  - cbn [app split_scan]. now apply split_scan_separator.
  - cbn [app split_scan]. destruct (isspace c); rewrite IH; [|reflexivity].
    now rewrite app_assoc.
Qed.

Lemma str_split_app_separator (a sep b : pystr) :
  is_separator sep = true ->
  str_split (a ++ sep ++ b) = str_split a ++ str_split b.
Proof. intros Hsep. now apply split_scan_app_separator. Qed.

Lemma ends_with_space_inv (a : pystr) :
  ends_with_space a = true ->
  exists a' c, a = a' ++ [c] /\ isspace c = true.
Proof.
  unfold ends_with_space. intros H.
  destruct (rev a) as [|c r] eqn:Er; [discriminate|].
  exists (rev r), c. split; [|exact H].
  rewrite <- (rev_involutive a), Er. reflexivity.
Qed.

Lemma str_split_app_space (a b : pystr) :
  ends_with_space a = true -> str_split (a ++ b) = str_split a ++ str_split b.
Proof.
  intros H. destruct (ends_with_space_inv a H) as (a' & c & -> & Hc).
  assert (Hsep : is_separator [c] = true).
  { unfold is_separator, is_whitespace. cbn. now rewrite Hc. }
  rewrite <- app_assoc, str_split_app_separator by exact Hsep.
  f_equal. unfold str_split. symmetry.
  apply split_scan_trailing. unfold is_whitespace. cbn. now rewrite Hc.
Qed.

Lemma len_app {A : Type} (xs ys : list A) : len (xs ++ ys) = len xs + len ys.
Proof. unfold len. rewrite length_app. lia. Qed.

Lemma counts_of_split (s t : pystr) (ws : list pystr) :
  str_split s = str_split t ++ ws ->
  qualifying_count s =
    qualifying_count t + len (filter (fun w => negb (is_stopword w)) ws) /\
  long_count s =
    long_count t +
    len (filter is_long (filter (fun w => negb (is_stopword w)) ws)).
Proof.
  intros H. unfold qualifying_count, long_count, qualifying_words.
  rewrite <- !str_split_words, H, !filter_app, !len_app. split; reflexivity.
Qed.

Lemma counts_app (a b : pystr) :
  str_split (a ++ b) = str_split a ++ str_split b ->
  qualifying_count (a ++ b) = qualifying_count a + qualifying_count b /\
  long_count (a ++ b) = long_count a + long_count b.
Proof.
  intros H. destruct (counts_of_split (a ++ b) a (str_split b) H) as [HQ HL].
  rewrite HQ, HL. unfold qualifying_count, long_count, qualifying_words.
  now rewrite <- !str_split_words.
Qed.

Lemma counts_split_app (s a b : pystr) :
  str_split s = str_split a ++ str_split b ->
  qualifying_count s = qualifying_count a + qualifying_count b /\
  long_count s = long_count a + long_count b.
Proof.
  intros H. destruct (counts_of_split s a (str_split b) H) as [HQ HL].
  rewrite HQ, HL. unfold qualifying_count, long_count, qualifying_words.
  now rewrite <- !str_split_words.
Qed.

Lemma counts_lines (lines : list pystr) (tail : pystr) :
  forallb ends_with_space lines = true ->
  qualifying_count (List.concat lines ++ tail) =
    sum_qualifying lines + qualifying_count tail /\
  long_count (List.concat lines ++ tail) = sum_long lines + long_count tail.
Proof.
  induction lines as [|line lines IH]; intros H.
  - cbn [List.concat app sum_qualifying sum_long fold_right]. split; reflexivity.
  - apply andb_prop in H as [Hl Hr]. destruct (IH Hr) as [IQ IL].
    cbn [List.concat sum_qualifying sum_long fold_right].
    rewrite <- app_assoc.
    destruct (counts_app line (List.concat lines ++ tail)) as [HQ HL];
      [now apply str_split_app_space|].
    rewrite HQ, HL, IQ, IL. unfold sum_qualifying, sum_long. split; lia.
Qed.

(** Keeping some of the words commutes with reordering them. *)
Lemma kept_words_reordered (keep : pystr -> bool) (ws ws' : list pystr) :
  Permutation ws ws' -> Permutation (filter keep ws) (filter keep ws').
Proof.
  intros HP. induction HP as [|w ws ws' _ IH|w w' ws|ws ws' ws'' _ IH1 _ IH2];
    cbn [filter].
  - constructor.
  - destruct (keep w); [now constructor|exact IH].
  - destruct (keep w), (keep w'); try reflexivity. constructor.
  - now transitivity (filter keep ws').
Qed.


End Composition.

(** ** The percentage *)

Section Percentage.

Local Open Scope Z_scope.

(** Rounding what lies below an integer [K] of at most 52 bits gives a
    float that is not above [K]. *)
Lemma binary_round_aux_below (K q e : Z) (l : location) :
  0 < K <= 2 ^ 52 -> 0 <= q < K * 2 ^ (- e) -> e <= 0 ->
  binary_round_aux prec emax false q e l = S754_zero false \/
  exists (m : positive) (e' : Z),
    binary_round_aux prec emax false q e l = S754_finite false m e' /\
    e' <= 0 /\ Z.pos m <= K * 2 ^ (- e').
Proof.
  intros [HK0 HK] [Hq0 Hq] He. unfold binary_round_aux.
  destruct (shr_fexp_spec q e l Hq0) as [Hm1 He1].
  destruct (shr_fexp prec emax q e l) as [r1 e1]; cbn [fst snd] in Hm1, He1.
  assert (Hpe : 0 < 2 ^ (- e)) by (apply Z.pow_pos_nonneg; lia).
  assert (Hd : Zdigits2 q <= 52 - e).
  { apply Zdigits2_upper; [lia|]. split; [lia|].
    replace (52 - e) with (52 + - e) by lia. rewrite Z.pow_add_r by lia. nia. }
  rewrite fexp_eq in Hm1, He1.
  set (n1 := Z.max 0 (Z.max (Zdigits2 q + e - 53) (-1074) - e)) in *.
  assert (He1' : e1 <= 0) by lia.
  assert (Hp1 : 0 < 2 ^ (- e1)) by (apply Z.pow_pos_nonneg; lia).
  assert (Hpn1 : 0 < 2 ^ n1) by (apply Z.pow_pos_nonneg; lia).
  assert (Hsplit1 : 2 ^ (- e) = 2 ^ n1 * 2 ^ (- e1)).
  { rewrite <- Z.pow_add_r by lia. f_equal. lia. }
  assert (Hr1 : 0 <= shr_m r1 < K * 2 ^ (- e1)).
  { rewrite Hm1. split; [apply Z.div_pos; lia|].
    apply Z.div_lt_upper_bound; [lia|]. nia. }
  pose proof (round_nearest_even_bounds (shr_m r1) (loc_of_shr_record r1)) as Hrd.
  set (m2 := round_nearest_even (shr_m r1) (loc_of_shr_record r1)) in *.
  assert (Hm2 : 0 <= m2 <= K * 2 ^ (- e1)) by lia.
  destruct (shr_fexp_spec m2 e1 loc_Exact ltac:(lia)) as [Hm3 He2].
  destruct (shr_fexp prec emax m2 e1 loc_Exact) as [r2 e2]; cbn [fst snd] in Hm3, He2.
  assert (Hd2 : Zdigits2 m2 <= 53 - e1).
  { apply Zdigits2_upper; [lia|]. split; [lia|].
    replace (53 - e1) with (53 + - e1) by lia. rewrite Z.pow_add_r by lia.
    change (2 ^ 53) with (2 * 2 ^ 52). nia. }
  rewrite fexp_eq in Hm3, He2.
  set (n2 := Z.max 0 (Z.max (Zdigits2 m2 + e1 - 53) (-1074) - e1)) in *.
  assert (He2' : e2 <= 0) by lia.
  assert (Hp2 : 0 < 2 ^ (- e2)) by (apply Z.pow_pos_nonneg; lia).
  assert (Hpn2 : 0 < 2 ^ n2) by (apply Z.pow_pos_nonneg; lia).
  assert (Hsplit2 : 2 ^ (- e1) = 2 ^ n2 * 2 ^ (- e2)).
  { rewrite <- Z.pow_add_r by lia. f_equal. lia. }
  assert (Hr2 : 0 <= shr_m r2 <= K * 2 ^ (- e2)).
  { rewrite Hm3. split; [apply Z.div_pos; lia|].
    apply Z.div_le_upper_bound; [lia|]. nia. }
  destruct (shr_m r2) as [|m3|m3]; [now left| |lia].
  right. exists m3, e2.
  replace (e2 <=? emax - prec) with true
    by (symmetry; apply Z.leb_le; unfold emax, prec; lia).
  split; [reflexivity|]. split; [exact He2'|]. lia.
Qed.

Lemma int_of_float_below (K : Z) (m : positive) (e : Z) :
  e <= 0 -> Z.pos m <= K * 2 ^ (- e) ->
  exists n : Z, int_of_float (S754_finite false m e) = inr n /\ 0 <= n <= K.
Proof.
  intros He Hm. exists (Z.shiftl (Z.pos m) e). split; [reflexivity|].
  rewrite Z.shiftl_div_pow2 by exact He.
  assert (0 < 2 ^ (- e)) by (apply Z.pow_pos_nonneg; lia).
  split; [apply Z.div_pos; lia|].
  apply Z.div_le_upper_bound; [lia|]. lia.
Qed.

(** The only float of the format with value exactly one. *)
Lemma valid_one (m : positive) (e : Z) :
  valid_binary prec emax (S754_finite false m e) = true ->
  e <= 0 -> Z.pos m = 2 ^ (- e) -> S754_finite false m e = float_one.
Proof.
  intros Hv He Hm. cbn [valid_binary] in Hv. unfold bounded in Hv.
  apply andb_prop in Hv as [Hc _]. unfold canonical_mantissa in Hc.
  apply Z.eqb_eq in Hc. rewrite fexp_eq in Hc.
  change (Z.pos (digits2_pos m)) with (Zdigits2 (Z.pos m)) in Hc.
  assert (Hd : Zdigits2 (Z.pos m) = - e + 1).
  { apply Z.le_antisymm.
    - apply Zdigits2_upper; [lia|]. split; [lia|].
      rewrite Hm, Z.pow_add_r by lia. assert (0 < 2 ^ (- e)) by lia. lia.
    - apply Zdigits2_lower; [|lia]. replace (- e + 1 - 1) with (- e) by lia. lia. }
  assert (He52 : e = -52) by lia. subst e.
  unfold float_one. f_equal. change (2 ^ (- -52)) with (Z.pos 4503599627370496) in Hm.
  now injection Hm.
Qed.

(** [int(x * 100)] for a ratio [x]: an integer from 0 to 100. *)
Lemma int_times_100 (x : pyfloat) :
  is_ratio x = true ->
  exists n : Z, int_of_float (times_100 x) = inr n /\ 0 <= n <= 100.
Proof.
  intros Hx. unfold is_ratio in Hx. rewrite !andb_true_iff in Hx.
  destruct Hx as [[Hv Hu] _].
  destruct x as [s|s| |s m e]; try discriminate Hu.
  - exists 0. split; [reflexivity|lia].
  - destruct s; [discriminate Hu|]. cbn [unit_value] in Hu.
    apply andb_prop in Hu as [He Hm].
    apply Z.leb_le in He. apply Z.leb_le in Hm.
    destruct (Z.eq_dec (Z.pos m) (2 ^ (- e))) as [Heq|Hne].
    + rewrite (valid_one m e Hv He Heq). exists 100. split; [reflexivity|lia].
    + unfold times_100.
      change (float_from_int 100) with (S754_finite false 7036874417766400 (-46)).
      cbn [SFmul xorb].
      assert (Hpe : 0 < 2 ^ (- e)) by (apply Z.pow_pos_nonneg; lia).
      assert (Hq : 0 <= Z.pos (m * 7036874417766400) < 100 * 2 ^ (- (e + -46))).
      { split; [lia|]. rewrite Pos2Z.inj_mul.
        replace (- (e + -46)) with (- e + 46) by lia. rewrite Z.pow_add_r by lia.
        change (Z.pos 7036874417766400) with (100 * 2 ^ 46).
        assert (0 < 2 ^ 46) by lia. nia. }
      destruct (binary_round_aux_below 100 (Z.pos (m * 7036874417766400)) (e + -46)
                  loc_Exact ltac:(lia) Hq ltac:(lia))
        as [Hz|(m' & e' & Hr & He' & Hm')].
      * rewrite Hz. exists 0. split; [reflexivity|lia].
      * rewrite Hr. now apply int_of_float_below.
Qed.

Lemma percent_line_ratio (x : pyfloat) :
  is_ratio x = true ->
  exists p : Z, 0 <= p <= 100 /\ percent_line x = inr (str_of_int p ++ py "%").
Proof.
  intros Hx. destruct (int_times_100 x Hx) as (n & Hn & Hrange).
  exists n. split; [exact Hrange|]. unfold percent_line. now rewrite Hn.
Qed.

End Percentage.

(** ** Encoding the text for the native call *)

Section Marshalling.

Ltac nlia := zify; Z.to_euclidean_division_equations; lia.

Ltac range_cases c :=
  destruct (N.ltb_spec c 128); destruct (N.ltb_spec c 2048);
  destruct (N.ltb_spec c 65536); destruct (N.leb_spec 55296 c);
  destruct (N.leb_spec c 57343); destruct (N.leb_spec c 1114111);
  try lia; cbn [andb negb].

Lemma encode_char_scalar (c : codepoint) :
  is_scalar c = true ->
  exists b : pybytes,
    encode_char c = Some b /\ len b = utf8_width c /\ b <> [] /\
    Forall (fun x => (x < 256)%N) b /\
    (In 0%N b <-> c = 0%N).
Proof.
  unfold encode_char, is_scalar, utf8_width.
  range_cases c; intros Hs; try discriminate Hs; eexists;
    (split; [reflexivity|]); (split; [reflexivity|]); (split; [discriminate|]);
    (split; [repeat constructor; nlia|]);
    cbn [In]; split; intros Hin;
    repeat (destruct Hin as [Hin|Hin]); try contradiction; try nlia; auto.
Qed.

Lemma encode_char_not_scalar (c : codepoint) :
  is_scalar c = false -> encode_char c = None.
Proof.
  unfold encode_char, is_scalar.
  range_cases c; intros Hs; try discriminate Hs; reflexivity.
Qed.

Lemma encode_text (s : pystr) :
  is_text s = true ->
  exists string : pybytes, encode s = inr string /\ len string = utf8_len s.
Proof.
  induction s as [|c s IH]; intros Ht.
  - exists []. split; reflexivity.
  - apply andb_prop in Ht as [Hc Hs].
    destruct (encode_char_scalar c Hc) as (b & Hb & Hlen & _).
    destruct (IH Hs) as (bs & Hbs & Hlens).
    exists (b ++ bs). cbn [encode utf8_len fold_right]. rewrite Hb, Hbs.
    split; [reflexivity|]. rewrite len_app, Hlen. unfold utf8_len in Hlens.
    now rewrite Hlens.
Qed.

Lemma encode_not_text (s : pystr) :
  is_text s = false -> encode s = inl UnicodeEncodeError.
Proof.
  induction s as [|c s IH]; intros Ht; [discriminate|].
  cbn [is_text forallb] in Ht. cbn [encode].
  destruct (is_scalar c) eqn:Hc.
  - cbn [andb] in Ht. rewrite (IH Ht). now destruct (encode_char c).
  - now rewrite (encode_char_not_scalar c Hc).
Qed.

Lemma encode_only_error (s : pystr) (e : script_exn) :
  encode s = inl e -> e = UnicodeEncodeError.
Proof.
  destruct s as [|c s]; cbn [encode]; [discriminate|].
  destruct (encode_char c), (encode s); congruence.
Qed.

Lemma encode_inr_text (s : pystr) (string : pybytes) :
  encode s = inr string -> is_text s = true.
Proof.
  intros H. destruct (is_text s) eqn:Ht; [reflexivity|].
  rewrite (encode_not_text s Ht) in H. discriminate.
Qed.

Lemma encode_cons (c : codepoint) (s : pystr) (string : pybytes) :
  encode (c :: s) = inr string ->
  exists b bs,
    encode_char c = Some b /\ encode s = inr bs /\ string = b ++ bs /\
    is_scalar c = true.
Proof.
  intros H. pose proof (encode_inr_text _ _ H) as Ht.
  apply andb_prop in Ht as [Hc _]. cbn [encode] in H.
  destruct (encode_char c) as [b|]; [|discriminate].
  destruct (encode s) as [e|bs]; [discriminate|].
  exists b, bs. injection H as <-. repeat split; assumption.
Qed.

#[local] Opaque N.add N.div N.modulo.

(** Two encoded characters that start the same bytes are one character. *)
Lemma encode_char_prefix (c d : codepoint) (b b' r r' : pybytes) :
  encode_char c = Some b -> encode_char d = Some b' ->
  b ++ r = b' ++ r' -> c = d /\ r = r'.
Proof.
  unfold encode_char.
  range_cases c; range_cases d;
    intros Hb Hb' Heq; try discriminate;
    injection Hb as <-; injection Hb' as <-; cbn [app] in Heq;
    injection Heq; intros; subst;
    first [solve [split; [nlia|reflexivity]] | exfalso; nlia].
Qed.

#[local] Transparent N.add N.div N.modulo.

End Marshalling.

Section MarshallingFacts.

Local Open Scope Z_scope.

Lemma encode_app (a b : pystr) :
  encode (a ++ b) =
    match encode a, encode b with
    | inr x, inr y => inr (x ++ y)
    | _, _ => inl UnicodeEncodeError
    end.
Proof.
  induction a as [|c a IH]; cbn [app encode].
  - destruct (encode b) as [e|y] eqn:Eb; [|reflexivity].
    now rewrite (encode_only_error b e Eb).
  - rewrite IH. destruct (encode_char c) as [bc|]; [|reflexivity].
    destruct (encode a) as [e|x]; [reflexivity|].
    destruct (encode b) as [e|y]; [reflexivity|]. now rewrite app_assoc.
Qed.

Lemma encode_ascii (s : pystr) : is_ascii s = true -> encode s = inr s.
Proof.
  induction s as [|c s IH]; intros H; [reflexivity|].
  apply andb_prop in H as [Hc Hs]. cbn [encode]. rewrite (IH Hs).
  unfold encode_char. now rewrite Hc.
Qed.

Lemma utf8_width_bounds (c : codepoint) : 1 <= utf8_width c <= 4.
Proof.
  unfold utf8_width.
  destruct (c <? 128)%N, (c <? 2048)%N, (c <? 65536)%N; lia.
Qed.

Lemma encode_bytes (s : pystr) :
  forall string : pybytes,
    encode s = inr string ->
    Forall (fun x => (x < 256)%N) string /\
    len s <= len string <= 4 * len s /\
    (In 0%N string <-> In 0%N s).
Proof.
  induction s as [|c s IH]; intros string H.
  - injection H as <-. repeat split; try constructor; auto; unfold len; cbn; lia.
  - destruct (encode_cons c s string H) as (b & bs & Hb & Hbs & -> & Hc).
    destruct (encode_char_scalar c Hc) as (b' & Hb' & Hlen & _ & Hlt & Hz).
    assert (b' = b) by congruence. subst b'.
    destruct (IH bs Hbs) as (Hlts & Hlens & Hzs).
    pose proof (utf8_width_bounds c) as Hw.
    split; [now apply Forall_app|].
    split; [rewrite len_app, len_cons; lia|].
    rewrite in_app_iff. cbn [In]. rewrite Hz, Hzs. intuition congruence.
Qed.

Lemma encode_injective (s : pystr) :
  forall (t : pystr) (string : pybytes),
    encode s = inr string -> encode t = inr string -> s = t.
Proof.
  induction s as [|c s IH]; intros t string Hs Ht.
  - injection Hs as <-. destruct t as [|d t]; [reflexivity|].
    destruct (encode_cons d t [] Ht) as (b & bs & Hb & _ & Heq & Hd).
    destruct (encode_char_scalar d Hd) as (b' & Hb' & _ & Hne & _).
    assert (b' = b) by congruence. subst b'.
    destruct b; [contradiction|discriminate].
  - destruct (encode_cons c s string Hs) as (b & bs & Hb & Hbs & -> & Hc).
    destruct t as [|d t].
    + injection Ht as Ht.
      destruct (encode_char_scalar c Hc) as (b' & Hb' & _ & Hne & _).
      assert (b' = b) by congruence. subst b'.
      destruct b; [contradiction|discriminate].
    + destruct (encode_cons d t (b ++ bs) Ht) as (b' & bs' & Hb' & Hbs' & Heq & _).
      destruct (encode_char_prefix c d b b' bs bs' Hb Hb' Heq) as [-> ->].
      f_equal. exact (IH t bs' Hbs Hbs').
Qed.

Lemma native_arguments_encode (s : pystr) (string : pybytes) :
  encode s = inr string ->
  native_arguments s = inr (string ++ [0%N], len string + 1).
Proof.
  intros H. unfold native_arguments, ffi_new_char_array. rewrite H.
  now rewrite len_app.
Qed.

Lemma forallb_filter_all {A : Type} (f : A -> bool) (l : list A) :
  forallb f l = true -> filter f l = l.
Proof.
  induction l as [|x l IH]; [reflexivity|]. cbn [forallb filter].
  intros H. apply andb_prop in H as [Hx Hl]. now rewrite Hx, IH.
Qed.

Lemma existsb_filter_none {A : Type} (f : A -> bool) (l : list A) :
  existsb f l = false -> filter f l = [].
Proof.
  induction l as [|x l IH]; [reflexivity|]. cbn [existsb filter].
  intros H. apply orb_false_elim in H as [Hx Hl]. now rewrite Hx, IH.
Qed.

Lemma inPython_main_run (lines : list pystr) (g : module_state) :
  inPython_main lines g =
    match int_truediv (long_count (List.concat lines))
                      (qualifying_count (List.concat lines)) with
    | Raise e =>
        (inl (Uncaught e),
         {| example := List.concat lines;
            printed := printed g ++ [py "Pure Python: "] |})
    | Return x =>
        match percent_line x with
        | inl e =>
            (inl e,
             {| example := List.concat lines;
                printed := printed g ++ [py "Pure Python: "] |})
        | inr line =>
            (inr tt,
             {| example := List.concat lines;
                printed := printed g ++ [py "Pure Python: "; line] |})
        end
    end.
Proof.
  unfold inPython_main. rewrite script_run.
  destruct (int_truediv _ _) as [x|e]; [|reflexivity].
  destruct (percent_line x) as [e|line]; [reflexivity|].
  unfold print. cbn [snd example printed]. now rewrite <- app_assoc.
Qed.

Lemma withRust_main_run (short_long : pybytes -> Z -> pyfloat)
    (lines : list pystr) (g : module_state) (string : pybytes) :
  encode (List.concat lines) = inr string ->
  withRust_main short_long lines g =
    match percent_line (short_long (string ++ [0%N]) (len string + 1)) with
    | inl e =>
        (inl e,
         {| example := List.concat lines;
            printed := printed g ++ [py "With Rust: "] |})
    | inr line =>
        (inr tt,
         {| example := List.concat lines;
            printed := printed g ++ [py "With Rust: "; line] |})
    end.
Proof.
  intros H. unfold withRust_main. rewrite load_string_example.
  unfold print. cbn [snd example printed].
  rewrite (native_arguments_encode _ _ H).
  destruct (percent_line _) as [e|line]; [reflexivity|].
  cbn [snd example printed]. now rewrite <- app_assoc.
Qed.

End MarshallingFacts.

(** ** Further properties of the two scripts *)

Section FurtherProperties.

Local Open Scope Z_scope.

(** X1: every element of the list that [string.split()] gives [shortLong]
    is a word: it is not empty and it holds no whitespace. *)
Theorem str_split_yields_words (s : pystr) :
  Forall (fun w => is_word w = true) (str_split s).
Proof. unfold str_split. now apply split_scan_words. Qed.

(** X2: the counts of a text in two parts, with whitespace between them,
    are the sums of the counts of the parts, and [shortLong] divides the
    sums: the ratio is pooled, not averaged. *)
Theorem shortLong_pools_counts (a sep b : pystr) (g : module_state) :
  is_separator sep = true ->
  shortLong (a ++ sep ++ b) g =
    (int_truediv (long_count a + long_count b)
                 (qualifying_count a + qualifying_count b), g).
Proof.
  intros Hsep. rewrite shortLong_run.
  destruct (counts_split_app (a ++ sep ++ b) a b) as [-> ->];
    [now apply str_split_app_separator|reflexivity].
Qed.

Lemma shortLong_pools_counts_witness :
  is_separator NEWLINE = true /\
  shortLong (py "the cat" ++ NEWLINE ++ py "a hippopotamus sat") g0 =
    (Return (ratio_float 1 3), g0).
Proof.
  split; [reflexivity|].
  rewrite (shortLong_pools_counts (py "the cat") NEWLINE (py "a hippopotamus sat") g0);
    reflexivity.
Defined.



(** X4: with at least one qualifying word, [shortLong] returns exactly 1.0
    when every qualifying word has more than 8 characters, and exactly 0.0
    when none has. *)
Theorem shortLong_extremes (s : pystr) (g : module_state) :
  0 < qualifying_count s ->
  (forallb is_long (qualifying_words s) = true ->
   result_of (shortLong s) g = Return float_one) /\
  (existsb is_long (qualifying_words s) = false ->
   result_of (shortLong s) g = Return float_zero).
Proof.
  intros HQ. unfold result_of. rewrite shortLong_returns by exact HQ.
  cbn [fst]. split; intros H; f_equal.
  - unfold long_count. rewrite (forallb_filter_all _ _ H).
    now apply ratio_float_same.
  - unfold long_count. rewrite (existsb_filter_none _ _ H).
    now apply ratio_float_0.
Qed.

Lemma shortLong_extremes_witness :
  result_of (shortLong (py "a hippopotamus the rhinoceros")) g0 = Return float_one /\
  result_of (shortLong (py "a cat sat")) g0 = Return float_zero.
Proof.
  split.
  - apply (proj1 (shortLong_extremes (py "a hippopotamus the rhinoceros") g0
                    eq_refl)).
    reflexivity.
  - apply (proj2 (shortLong_extremes (py "a cat sat") g0 eq_refl)).
    reflexivity.
Defined.

(** X5: the order of the words does not matter: two texts whose words are
    the same up to their order get the same result from [shortLong]. *)
Theorem shortLong_word_order (s t : pystr) (g : module_state) :
  Permutation (str_split s) (str_split t) ->
  shortLong s g = shortLong t g.
Proof.
  intros HP. rewrite !shortLong_run.
  unfold long_count, qualifying_count, qualifying_words, len.
  rewrite <- !str_split_words.
  pose proof (kept_words_reordered (fun w => negb (is_stopword w)) _ _ HP) as HPq.
  rewrite (Permutation_length HPq).
  now rewrite (Permutation_length (kept_words_reordered is_long _ _ HPq)).
Qed.

Lemma shortLong_word_order_witness :
  shortLong (py "cat hippopotamus") g0 = shortLong (py "hippopotamus cat") g0.
Proof.
  apply (shortLong_word_order (py "cat hippopotamus") (py "hippopotamus cat") g0).
  vm_compute. apply perm_swap.
Defined.

(** X6: for a file whose lines end in whitespace (their newline), the text
    the scripts build is counted line by line: [shortLong] divides the sum
    of the long-word counts of the lines by the sum of their
    qualifying-word counts; a last line without newline counts the same
    way. *)
Theorem shortLong_over_lines
    (lines : list pystr) (last_line : pystr) (g : module_state) :
  forallb ends_with_space lines = true ->
  shortLong (List.concat lines ++ last_line) g =
    (int_truediv (sum_long lines + long_count last_line)
                 (sum_qualifying lines + qualifying_count last_line), g).
Proof.
  intros H. rewrite shortLong_run.
  destruct (counts_lines lines last_line H) as [-> ->]. reflexivity.
Qed.

Lemma shortLong_over_lines_witness :
  forallb ends_with_space
    [py "the hippopotamus" ++ NEWLINE; py "sat on a cat" ++ NEWLINE] = true /\
  shortLong
    (List.concat [py "the hippopotamus" ++ NEWLINE; py "sat on a cat" ++ NEWLINE]
       ++ py "rhinoceros") g0 =
    (Return (ratio_float 2 5), g0).
Proof.
  split; [reflexivity|].
  rewrite (shortLong_over_lines
             [py "the hippopotamus" ++ NEWLINE; py "sat on a cat" ++ NEWLINE]
             (py "rhinoceros") g0); reflexivity.
Defined.


End FurtherProperties.

Section ScriptProperties.

Local Open Scope Z_scope.

(** X8: when the file holds at least one qualifying word, src/inPython.py
    ends its printing part without an exception, having printed the
    heading and then one line made of an integer from 0 to 100 and a
    percent sign. *)
Theorem inPython_prints_percentage (lines : list pystr) (g : module_state) :
  0 < qualifying_count (List.concat lines) ->
  exists p : Z,
    0 <= p <= 100 /\
    inPython_main lines g =
      (inr tt,
       {| example := List.concat lines;
          printed := printed g ++ [py "Pure Python: "; str_of_int p ++ py "%"] |}).
Proof.
  intros HQ. rewrite inPython_main_run.
  rewrite int_truediv_ratio by (try apply counts_bounds; exact HQ).
  destruct (percent_line_ratio _ (ratio_float_unit _ _ (counts_bounds _) HQ))
    as (p & Hp & ->).
  exists p. split; [exact Hp|reflexivity].
Qed.

Lemma inPython_prints_percentage_witness :
  exists p : Z,
    0 <= p <= 100 /\
    inPython_main [py "the hippopotamus" ++ NEWLINE; py "sat on a cat"] g0 =
      (inr tt,
       {| example :=
            List.concat [py "the hippopotamus" ++ NEWLINE; py "sat on a cat"];
          printed := printed g0 ++ [py "Pure Python: "; str_of_int p ++ py "%"] |}).
Proof.
  apply (inPython_prints_percentage
           [py "the hippopotamus" ++ NEWLINE; py "sat on a cat"] g0).
  reflexivity.
Defined.

(** X9: when the file holds no qualifying word (an empty file, blank lines,
    stopwords only), src/inPython.py prints its heading and then stops on
    the [ZeroDivisionError] of [shortLong], which nothing catches; no
    percentage is printed. *)
Theorem inPython_no_qualifying_word (lines : list pystr) (g : module_state) :
  qualifying_count (List.concat lines) = 0 ->
  inPython_main lines g =
    (inl (Uncaught ZeroDivisionError),
     {| example := List.concat lines;
        printed := printed g ++ [py "Pure Python: "] |}).
Proof.
  intros HQ. rewrite inPython_main_run, HQ. reflexivity.
Qed.

Lemma inPython_no_qualifying_word_witness :
  qualifying_count (List.concat [py "the a" ++ NEWLINE; NEWLINE]) = 0 /\
  inPython_main [py "the a" ++ NEWLINE; NEWLINE] g0 =
    (inl (Uncaught ZeroDivisionError),
     {| example := List.concat [py "the a" ++ NEWLINE; NEWLINE];
        printed := printed g0 ++ [py "Pure Python: "] |}).
Proof.
  split; [reflexivity|].
  apply (inPython_no_qualifying_word [py "the a" ++ NEWLINE; NEWLINE] g0).
  reflexivity.
Defined.

(** X10: src/inPython.py prints "100%" for a file in which every qualifying
    word has more than 8 characters, and "0%" for a file with qualifying
    words of which none has. *)
Theorem inPython_prints_extremes (lines : list pystr) (g : module_state) :
  0 < qualifying_count (List.concat lines) ->
  (forallb is_long (qualifying_words (List.concat lines)) = true ->
   inPython_main lines g =
     (inr tt,
      {| example := List.concat lines;
         printed := printed g ++ [py "Pure Python: "; py "100%"] |})) /\
  (existsb is_long (qualifying_words (List.concat lines)) = false ->
   inPython_main lines g =
     (inr tt,
      {| example := List.concat lines;
         printed := printed g ++ [py "Pure Python: "; py "0%"] |})).
Proof.
  intros HQ. rewrite inPython_main_run.
  rewrite int_truediv_ratio by (try apply counts_bounds; exact HQ).
  split; intros H; unfold long_count.
  - rewrite (forallb_filter_all _ _ H).
    fold (qualifying_count (List.concat lines)).
    now rewrite ratio_float_same.
  - rewrite (existsb_filter_none _ _ H).
    change (len []) with 0. now rewrite ratio_float_0.
Qed.

Lemma inPython_prints_extremes_witness :
  inPython_main [py "a hippopotamus" ++ NEWLINE; py "the rhinoceros"] g0 =
    (inr tt,
     {| example := List.concat [py "a hippopotamus" ++ NEWLINE; py "the rhinoceros"];
        printed := printed g0 ++ [py "Pure Python: "; py "100%"] |}) /\
  inPython_main [py "a cat" ++ NEWLINE; py "sat"] g0 =
    (inr tt,
     {| example := List.concat [py "a cat" ++ NEWLINE; py "sat"];
        printed := printed g0 ++ [py "Pure Python: "; py "0%"] |}).
Proof.
  split.
  - apply (proj1 (inPython_prints_extremes
                    [py "a hippopotamus" ++ NEWLINE; py "the rhinoceros"] g0 eq_refl)).
    reflexivity.
  - apply (proj2 (inPython_prints_extremes
                    [py "a cat" ++ NEWLINE; py "sat"] g0 eq_refl)).
    reflexivity.
Defined.

(** X11: src/withRust.py hands the native function the UTF-8 bytes of the
    text followed by a zero byte, and as length the number of those bytes
    plus one; when the native function answers with a ratio between 0 and
    1, the script prints its heading and an integer from 0 to 100 with a
    percent sign. *)
Theorem withRust_prints_percentage
    (short_long : pybytes -> Z -> pyfloat)
    (lines : list pystr) (g : module_state) (string : pybytes) :
  encode (List.concat lines) = inr string ->
  is_ratio (short_long (string ++ [0%N]) (utf8_len (List.concat lines) + 1)) = true ->
  exists p : Z,
    0 <= p <= 100 /\
    withRust_main short_long lines g =
      (inr tt,
       {| example := List.concat lines;
          printed := printed g ++ [py "With Rust: "; str_of_int p ++ py "%"] |}).
Proof.
  intros Henc Hx. rewrite (withRust_main_run short_long lines g string Henc).
  destruct (encode_text _ (encode_inr_text _ _ Henc)) as (string' & Henc' & Hlen).
  assert (string' = string) by congruence. subst string'. rewrite Hlen.
  destruct (percent_line_ratio _ Hx) as (p & Hp & ->).
  exists p. split; [exact Hp|reflexivity].
Qed.

Lemma withRust_prints_percentage_witness :
  exists p : Z,
    0 <= p <= 100 /\
    withRust_main (fun _ _ => ratio_float 2 3) [py "caf" ++ [233%N]] g0 =
      (inr tt,
       {| example := List.concat [py "caf" ++ [233%N]];
          printed := printed g0 ++ [py "With Rust: "; str_of_int p ++ py "%"] |}).
Proof.
  apply (withRust_prints_percentage (fun _ _ => ratio_float 2 3)
           [py "caf" ++ [233%N]] g0 [99; 97; 102; 195; 169]%N);
    reflexivity.
Defined.

(** X12: when the native function answers NaN, src/withRust.py stops on the
    [ValueError] of [int()], and when it answers an infinity, on the
    [OverflowError] of [int()]; in both cases only the heading has been
    printed. *)
Theorem withRust_not_a_ratio
    (short_long : pybytes -> Z -> pyfloat)
    (lines : list pystr) (g : module_state) (string : pybytes) :
  encode (List.concat lines) = inr string ->
  (short_long (string ++ [0%N]) (len string + 1) = S754_nan ->
   withRust_main short_long lines g =
     (inl ValueError,
      {| example := List.concat lines;
         printed := printed g ++ [py "With Rust: "] |})) /\
  (forall s : bool,
      short_long (string ++ [0%N]) (len string + 1) = S754_infinity s ->
      withRust_main short_long lines g =
        (inl (Uncaught OverflowError),
         {| example := List.concat lines;
            printed := printed g ++ [py "With Rust: "] |})).
Proof.
  intros Henc. rewrite (withRust_main_run short_long lines g string Henc).
  split; [intros ->|intros s ->]; [reflexivity|now destruct s].
Qed.

Lemma withRust_not_a_ratio_witness :
  withRust_main (fun _ _ => S754_nan) [py "the a"] g0 =
    (inl ValueError,
     {| example := List.concat [py "the a"];
        printed := printed g0 ++ [py "With Rust: "] |}).
Proof.
  apply (proj1 (withRust_not_a_ratio (fun _ _ => S754_nan) [py "the a"] g0
                  (py "the a") eq_refl)).
  reflexivity.
Defined.

End ScriptProperties.

Section MarshallingProperties.

Local Open Scope Z_scope.

(** X13: for a text of Unicode scalar values, as reading the file gives
    it, the arguments of the native call are the UTF-8 bytes of the text
    with one zero byte behind them, and a length that counts this zero: the
    number of bytes of the text plus one. *)
Theorem native_arguments_text (s : pystr) :
  is_text s = true ->
  exists string : pybytes,
    encode s = inr string /\
    native_arguments s = inr (string ++ [0%N], utf8_len s + 1) /\
    len string = utf8_len s.
Proof.
  intros Ht. destruct (encode_text s Ht) as (string & Henc & Hlen).
  exists string. split; [exact Henc|]. split; [|exact Hlen].
  now rewrite (native_arguments_encode s string Henc), Hlen.
Qed.

Lemma native_arguments_text_witness :
  exists string : pybytes,
    encode (py "caf" ++ [233%N]) = inr string /\
    native_arguments (py "caf" ++ [233%N]) =
      inr (string ++ [0%N], utf8_len (py "caf" ++ [233%N]) + 1) /\
    len string = utf8_len (py "caf" ++ [233%N]).
Proof. apply (native_arguments_text (py "caf" ++ [233%N])). reflexivity. Defined.

(** X14: [example.encode()] fails, with [UnicodeEncodeError] and nothing
    else, exactly when the text holds a surrogate (or a value that is no
    code point); the native function is then given nothing. *)
Theorem native_arguments_fails_iff (s : pystr) :
  (native_arguments s = inl UnicodeEncodeError <-> is_text s = false) /\
  (forall e : script_exn, native_arguments s = inl e -> e = UnicodeEncodeError).
Proof.
  unfold native_arguments. split; [split|].
  - intros H. destruct (is_text s) eqn:Ht; [|reflexivity].
    destruct (encode_text s Ht) as (string & Henc & _).
    rewrite Henc in H. discriminate.
  - intros Ht. now rewrite (encode_not_text s Ht).
  - intros e H. destruct (encode s) as [e'|string] eqn:Henc; [|discriminate].
    injection H as <-. exact (encode_only_error s e' Henc).
Qed.

Lemma native_arguments_fails_iff_witness :
  native_arguments (py "a" ++ [55357%N]) = inl UnicodeEncodeError.
Proof.
  apply (proj2 (proj1 (native_arguments_fails_iff (py "a" ++ [55357%N])))).
  reflexivity.
Defined.

(** X15: encoding goes part by part: when the lines of the file encode,
    the bytes of the text the scripts build are the bytes of the lines,
    one after the other. *)
Theorem encode_lines (lines : list pystr) (encoded : list pybytes) :
  Forall2 (fun line string => encode line = inr string) lines encoded ->
  encode (List.concat lines) = inr (List.concat encoded).
Proof.
  induction 1 as [|line string lines encoded Hline _ IH]; [reflexivity|].
  cbn [List.concat]. now rewrite encode_app, Hline, IH.
Qed.

Lemma encode_lines_witness :
  encode (List.concat [py "caf" ++ [233%N]; NEWLINE]) =
    inr (List.concat [[99; 97; 102; 195; 169]; [10]]%N).
Proof.
  apply (encode_lines [py "caf" ++ [233%N]; NEWLINE]
           [[99; 97; 102; 195; 169]; [10]]%N).
  repeat constructor.
Defined.

(** X16: for an ASCII text the bytes handed to the native function are the
    characters themselves, and the length is the number of characters plus
    one. *)
Theorem native_arguments_ascii (s : pystr) :
  is_ascii s = true -> native_arguments s = inr (s ++ [0%N], len s + 1).
Proof.
  intros H. now rewrite (native_arguments_encode s s (encode_ascii s H)).
Qed.

Lemma native_arguments_ascii_witness :
  is_ascii (py "the cat") = true /\
  native_arguments (py "the cat") = inr (py "the cat" ++ [0%N], 8).
Proof.
  split; [reflexivity|].
  apply (native_arguments_ascii (py "the cat")). reflexivity.
Defined.

(** X17: whatever the text, the buffer of the native call holds bytes
    (numbers below 256), the length given with it is the length of the
    buffer, and it lies between the number of characters plus one and four
    times that number plus one. *)
Theorem native_arguments_bounds (s : pystr) (cstr : pybytes) (n : Z) :
  native_arguments s = inr (cstr, n) ->
  Forall (fun x => (x < 256)%N) cstr /\
  n = len cstr /\
  len s + 1 <= n <= 4 * len s + 1.
Proof.
  unfold native_arguments, ffi_new_char_array. intros H.
  destruct (encode s) as [e|string] eqn:Henc; [discriminate|].
  injection H as <- <-.
  destruct (encode_bytes s string Henc) as (Hlt & Hlen & _).
  split; [|split; [reflexivity|]].
  - apply Forall_app. split; [exact Hlt|]. repeat constructor.
  - rewrite len_app. change (len [0%N]) with 1. lia.
Qed.

Lemma native_arguments_bounds_witness :
  Forall (fun x => (x < 256)%N) [226; 130; 172; 0]%N /\
  4 = len [226; 130; 172; 0]%N /\
  len [8364%N] + 1 <= 4 <= 4 * len [8364%N] + 1.
Proof.
  apply (native_arguments_bounds [8364%N] [226; 130; 172; 0]%N 4).
  reflexivity.
Defined.

(** X18: the buffer of the native call is a C string when the text holds
    no U+0000: its closing zero is then its only zero byte. *)
Theorem native_arguments_c_string (s : pystr) (cstr : pybytes) (n : Z) :
  native_arguments s = inr (cstr, n) ->
  ~ In 0%N s ->
  exists string : pybytes, cstr = string ++ [0%N] /\ ~ In 0%N string.
Proof.
  unfold native_arguments, ffi_new_char_array. intros H Hz.
  destruct (encode s) as [e|string] eqn:Henc; [discriminate|].
  injection H as <- _. exists string. split; [reflexivity|].
  destruct (encode_bytes s string Henc) as (_ & _ & Hin).
  now rewrite Hin.
Qed.

Lemma native_arguments_c_string_witness :
  exists string : pybytes,
    [99; 97; 102; 195; 169; 0]%N = string ++ [0%N] /\ ~ In 0%N string.
Proof.
  apply (native_arguments_c_string (py "caf" ++ [233%N])
           [99; 97; 102; 195; 169; 0]%N 6); [reflexivity|].
  cbn. intuition discriminate.
Defined.

(** X19: two texts that give the native call the same buffer are the same
    text. *)
Theorem native_arguments_injective (s t : pystr) (cstr : pybytes) (n m : Z) :
  native_arguments s = inr (cstr, n) ->
  native_arguments t = inr (cstr, m) ->
  s = t.
Proof.
  unfold native_arguments, ffi_new_char_array. intros Hs Ht.
  destruct (encode s) as [e|bs] eqn:Es; [discriminate|].
  destruct (encode t) as [e|bt] eqn:Et; [discriminate|].
  injection Hs as <- _. injection Ht as Heq _.
  apply app_inj_tail in Heq as [-> _].
  exact (encode_injective s t bs Es Et).
Qed.

Lemma native_arguments_injective_witness :
  py "caf" ++ [233%N] = [99; 97; 102; 233]%N.
Proof.
  apply (native_arguments_injective (py "caf" ++ [233%N]) [99; 97; 102; 233]%N
           [99; 97; 102; 195; 169; 0]%N 6 6); reflexivity.
Defined.

End MarshallingProperties.
